(** * Content resolution and usage counters of the shared contract library

  A shallow embedding of the functions of the TypeScript sources:

  - [getTextDirection], [RTL_LANGUAGES] and [getEffectiveLanguage] (video
    artifact schemas),
  - [getCanonicalContent], [getResolvedContent] and
    [getEffectiveOriginalLanguage] (session translation contract),
  - the action lists, the action predicates and the path builders (usage
    logging constants),
  - [getDailyPeriodId], [generateEventId], [getCounterUpdates],
    [logUsageEvent] and [logMcpUsage] (server-side usage logging).

  JavaScript values are modelled by an inductive type with the language's
  truthiness; numbers are IEEE 754 doubles (primitive floats). A member
  access on a nullable reference and a call of a function supplied by the
  caller are the operations that can raise, so the functions live in a small
  completion monad: "never throws" is then a statement about the result and
  not a consequence of the encoding. The asynchronous writers add the
  sequence of calls made to the store. *)

From Stdlib Require Import Floats Ascii.
From stdpp Require Import base option strings pretty gmap.

#[local] Set Warnings "-register-all,-clear-no-such-hyp".
#[local] Open Scope string_scope.

(** ** JavaScript values, truthiness and completions *)

Module Js.

(** The values a JSON-like document can hold. Objects keep their fields in
    insertion order. *)
Inductive JsValue : Type :=
| JUndefined
| JNull
| JBool (b : bool)
| JNum (x : float)
| JStr (s : string)
| JArr (items : list JsValue)
| JObj (fields : list (string * JsValue)).

(** ToBoolean: [undefined], [null], [false], [+0], [-0], [NaN] and the
    empty string are falsy; every other value (every object) is truthy. *)
Definition toBoolean (v : JsValue) : bool :=
  match v with
  | JUndefined | JNull => false
  | JBool b => b
  | JNum x => negb (PrimFloat.eqb x 0 || PrimFloat.is_nan x)
  | JStr s => negb (String.eqb s "")
  | JArr _ | JObj _ => true
  end.

(** Truthiness of a [string | undefined | null]. *)
Definition truthyStr (o : option string) : bool :=
  match o with
  | Some s => toBoolean (JStr s)
  | None => false
  end.

(** [v === 'lit'] for an arbitrary value [v]. *)
Definition isStr (v : JsValue) (lit : string) : bool :=
  match v with
  | JStr s => String.eqb s lit
  | _ => false
  end.

Inductive JsError : Type :=
| TypeError (msg : string).

(** The outcome of evaluating a piece of code: a value, or a raised error. *)
Inductive Completion (A : Type) : Type :=
| Normal (a : A)
| Throw (e : JsError).
Arguments Normal {A} a.
Arguments Throw {A} e.

#[global] Instance Completion_ret : MRet Completion := @Normal.
#[global] Instance Completion_bind : MBind Completion :=
  λ A B f m, match m with
             | Normal a => f a
             | Throw e => Throw e
             end.

(** [o.f] on a reference that may be [null] or [undefined]: raises a
    TypeError there. *)
Definition member {A B : Type} (o : option A) (f : A → B) : Completion B :=
  match o with
  | Some a => Normal (f a)
  | None => Throw (TypeError "Cannot read properties of undefined")
  end.

(** [o?.f]: optional chaining, [undefined] when the reference is absent. *)
Definition optMember {A : Type} (o : option A) (f : A → JsValue) : JsValue :=
  match o with
  | Some a => f a
  | None => JUndefined
  end.

(** [a ?? b]: the right operand is evaluated only when the left one is
    nullish. *)
Definition coalesce {A : Type} (a : option A) (b : Completion (option A))
  : Completion (option A) :=
  match a with
  | Some x => Normal (Some x)
  | None => b
  end.

End Js.
Export Js.

(** ** Text direction (video artifact schemas) *)

Module VideoArtifacts.

(** The options of [OutputLanguageSchema], in declaration order. *)
Definition OutputLanguageSchema : list string :=
  [ "auto"; "en"; "es"; "fr"; "de"; "pt"; "zh"; "ja"; "ko"; "ar"; "he";
    "ru"; "it"; "nl"; "pl"; "tr"; "vi"; "th"; "id"; "hi" ].

Definition RTL_LANGUAGES : gset string := {[ "ar"; "he" ]}.

Inductive TextDirection : Type :=
| DirRtl
| DirLtr
| DirAuto.

#[global] Instance TextDirection_eq_dec : EqDecision TextDirection.
Proof. solve_decision. Defined.

(** [RTL_LANGUAGES.has(language)]; the argument is a string on the only
    path that reaches the call. *)
Definition rtlHas (language : option string) : bool :=
  match language with
  | Some l => bool_decide (l ∈ RTL_LANGUAGES)
  | None => false
  end.

Definition getTextDirection (language : option string) : TextDirection :=
  if negb (truthyStr language) || bool_decide (language = Some "auto")
  then DirAuto
  else if rtlHas language then DirRtl
  else DirLtr.

End VideoArtifacts.
Export VideoArtifacts.

(** ** Session translation cache and resolved content *)

Module Schemas.

Inductive TranslationStatus : Type :=
| TsReady
| TsStale
| TsInProgress
| TsFailed.

#[global] Instance TranslationStatus_eq_dec : EqDecision TranslationStatus.
Proof. solve_decision. Defined.

Record TranslationEntry : Type := {
  translatedContent : JsValue;
  translatedAt : string;
  sourceRevision : float;
  sourceFingerprint : string;
  status : TranslationStatus;
  model : option string;
  error : option string;
}.

Record ContentMetadata : Type := {
  output_language : option string;
  detected_language : option string;
}.

(** [SessionContentDoc]: every field is optional. An absent [content] reads
    as [JUndefined]; an absent string, number or map reads as [None]. *)
Record SessionContentDoc : Type := {
  content : JsValue;
  content_metadata : option ContentMetadata;
  originalLanguage : option string;
  contentRevision : option float;
  contentFingerprint : option string;
  translations : option (gmap string TranslationEntry);
  updated_at : option string;
}.

Inductive FreshnessStatus : Type :=
| FsCanonical
| FsReady
| FsStale
| FsMissing.

#[global] Instance FreshnessStatus_eq_dec : EqDecision FreshnessStatus.
Proof. solve_decision. Defined.

Record ResolvedContentResult : Type := {
  contentToUse : JsValue;
  dir : TextDirection;
  languageUsed : string;
  freshnessStatus : FreshnessStatus;
}.

Definition getCanonicalContent (session : option SessionContentDoc)
  : Completion JsValue :=
  if negb (bool_decide (is_Some session)) then mret JUndefined
  else member session content.

Definition getEffectiveOriginalLanguage (metadata : option ContentMetadata)
  : Completion (option string) :=
  if negb (bool_decide (is_Some metadata)) then mret None
  else
    outputLanguage ← member metadata output_language;
    if bool_decide (outputLanguage = Some "auto")
    then member metadata detected_language
    else member metadata output_language.

(** [selectedLang && selectedLang !== 'auto' ? selectedLang : originalLang] *)
Definition requestedLanguage (selectedLang originalLang : option string)
  : option string :=
  if truthyStr selectedLang && negb (bool_decide (selectedLang = Some "auto"))
  then selectedLang
  else originalLang.

(** Past the guard [!lang] the variable is narrowed to [string]; this reads
    it. On the values the guard excludes it gives the property key that
    JavaScript would use for them. *)
Definition narrowed (lang : option string) : string :=
  default "undefined" lang.

(** [translations[lang]]: an absent key reads as [undefined]. Keys that a
    plain object inherits from its prototype ("constructor" and the like)
    read as values without a [status], which the function sends down the
    same branch as an absent entry. *)
Definition entryOf (translations : gmap string TranslationEntry)
    (lang : option string) : option TranslationEntry :=
  translations !! narrowed lang.

Definition getResolvedContent (session : option SessionContentDoc)
    (selectedLang : option string)
  : Completion (option ResolvedContentResult) :=
  if negb (toBoolean (optMember session content)) then mret None
  else
    canonical ← member session content;
    explicitLang ← member session originalLanguage;
    originalLang ← coalesce explicitLang
      (metadata ← member session content_metadata;
       getEffectiveOriginalLanguage metadata);
    let lang := requestedLanguage selectedLang originalLang in
    let dir := getTextDirection lang in
    if negb (truthyStr lang) || bool_decide (lang = originalLang)
    then mret (Some {| contentToUse := canonical;
                       dir := dir;
                       languageUsed := default (default "en" lang) originalLang;
                       freshnessStatus := FsCanonical |})
    else
      stored ← member session translations;
      let translations := default ∅ stored in
      let entry := entryOf translations lang in
      if negb (bool_decide (is_Some entry))
      then mret (Some {| contentToUse := canonical;
                         dir := dir;
                         languageUsed := default "en" originalLang;
                         freshnessStatus := FsMissing |})
      else
        entryStatus ← member entry status;
        if bool_decide (entryStatus = TsReady)
        then
          translated ← member entry translatedContent;
          mret (Some {| contentToUse := translated;
                        dir := dir;
                        languageUsed := narrowed lang;
                        freshnessStatus := FsReady |})
        else if bool_decide (entryStatus = TsStale)
        then
          translated ← member entry translatedContent;
          mret (Some {| contentToUse := translated;
                        dir := dir;
                        languageUsed := narrowed lang;
                        freshnessStatus := FsStale |})
        else mret (Some {| contentToUse := canonical;
                           dir := dir;
                           languageUsed := default "en" originalLang;
                           freshnessStatus := FsMissing |}).

End Schemas.
Export Schemas.

(** ** Usage counters (server-side usage logging) *)

Module UsageLogging.

(** The labels of the [switch] in [getCounterUpdates], in source order;
    together they are the members of the [UsageAction] union. *)
Definition handledActions : list string :=
  [ "session"; "session_complete"; "workflow_edit"; "publish"; "export";
    "chatbot_message"; "enrich_click"; "daily_active_user";
    "mcp_context_list"; "mcp_context_get"; "mcp_context_search";
    "mcp_context_modify";
    "video_forge_analysis"; "video_forge_augmentation" ].

(** [properties?.key] on a [Record<string, unknown> | undefined | null]. *)
Definition property (properties : option (gmap string JsValue))
    (key : string) : JsValue :=
  optMember properties (λ bag, default JUndefined (bag !! key)).

(** [typeof v === 'number' && v > 0], with the number when it holds. *)
Definition positiveNumber (v : JsValue) : option float :=
  match v with
  | JNum x => if PrimFloat.ltb 0 x then Some x else None
  | _ => None
  end.

Section CounterUpdates.

(** [IncrementFn = (n: number) => unknown]: supplied by the caller, so it
    may raise. [V] is what it returns. *)
Context {V : Type}.
Variable increment : float → Completion V.

(** [updates.field = increment(n);] *)
Definition assign (field : string) (n : float) (updates : gmap string V)
  : Completion (gmap string V) :=
  v ← increment n; mret (<[field := v]> updates).

(** [if (typeof v === 'number' && v > 0) updates.field = increment(v);] *)
Definition assignPositive (field : string) (v : JsValue)
    (updates : gmap string V) : Completion (gmap string V) :=
  match positiveNumber v with
  | Some x => assign field x updates
  | None => mret updates
  end.

(** The body of [case 'session']. *)
Definition sessionUpdates (properties : option (gmap string JsValue))
    (updates : gmap string V) : Completion (gmap string V) :=
  updates ← assign "sessions_started" 1 updates;
  let recordingSource := property properties "recording_source" in
  updates ←
    (if isStr recordingSource "screen"
     then assign "sessions_screen" 1 updates
     else if isStr recordingSource "camera"
     then assign "sessions_camera" 1 updates
     else mret updates);
  let outputType := property properties "output_type" in
  updates ←
    (if isStr outputType "workflow"
     then assign "sessions_workflow" 1 updates
     else if isStr outputType "teach_ai"
     then assign "sessions_teach_ai" 1 updates
     else mret updates);
  updates ←
    (if negb (toBoolean recordingSource) && negb (toBoolean outputType)
     then
       let legacySessionType := property properties "session_type" in
       if isStr legacySessionType "screen"
       then updates ← assign "sessions_screen" 1 updates;
            assign "sessions_workflow" 1 updates
       else if isStr legacySessionType "camera"
       then updates ← assign "sessions_camera" 1 updates;
            assign "sessions_workflow" 1 updates
       else if isStr legacySessionType "teach_ai"
       then updates ← assign "sessions_screen" 1 updates;
            assign "sessions_teach_ai" 1 updates
       else mret updates
     else mret updates);
  if toBoolean recordingSource && negb (toBoolean outputType)
  then assign "sessions_workflow" 1 updates
  else if negb (toBoolean recordingSource) && toBoolean outputType
  then assign "sessions_screen" 1 updates
  else mret updates.

(** The body shared by [case 'video_forge_analysis'] and
    [case 'video_forge_augmentation']. *)
Definition videoForgeUpdates (properties : option (gmap string JsValue))
    (updates : gmap string V) : Completion (gmap string V) :=
  let inputTokens := property properties "input_tokens" in
  let outputTokens := property properties "output_tokens" in
  let costUsd := property properties "cost_usd" in
  updates ← assignPositive "video_forge_input_tokens" inputTokens updates;
  updates ← assignPositive "video_forge_output_tokens" outputTokens updates;
  assignPositive "video_forge_cost_usd" costUsd updates.

Definition getCounterUpdates (action : string)
    (properties : option (gmap string JsValue))
  : Completion (gmap string V) :=
  let updates : gmap string V := ∅ in
  if String.eqb action "session" then sessionUpdates properties updates
  else if String.eqb action "session_complete" then
    updates ← assign "sessions_completed" 1 updates;
    let durationMs := property properties "session_duration_ms" in
    assignPositive "total_session_duration_ms" durationMs updates
  else if String.eqb action "workflow_edit" then
    assign "workflow_edits" 1 updates
  else if String.eqb action "publish" then
    assign "publishes" 1 updates
  else if String.eqb action "export" then
    assign "exports" 1 updates
  else if String.eqb action "chatbot_message" then
    assign "chatbot_messages" 1 updates
  else if String.eqb action "enrich_click" then
    assign "enrich_clicks" 1 updates
  else if String.eqb action "daily_active_user" then
    assign "unique_users" 1 updates
  else if String.eqb action "mcp_context_list" then
    updates ← assign "mcp_context_list" 1 updates;
    assign "mcp_total" 1 updates
  else if String.eqb action "mcp_context_get" then
    updates ← assign "mcp_context_get" 1 updates;
    assign "mcp_total" 1 updates
  else if String.eqb action "mcp_context_search" then
    updates ← assign "mcp_context_search" 1 updates;
    assign "mcp_total" 1 updates
  else if String.eqb action "mcp_context_modify" then
    updates ← assign "mcp_context_modify" 1 updates;
    assign "mcp_total" 1 updates
  else if String.eqb action "video_forge_analysis"
          || String.eqb action "video_forge_augmentation" then
    videoForgeUpdates properties updates
  else mret updates.

End CounterUpdates.

(** The increment function of the test suite, [(n) => ({ _increment: n })]:
    the update carries the amount. *)
Definition mockIncrement (n : float) : Completion float := Normal n.

(** An increment function that always raises. *)
Definition failingIncrement (n : float) : Completion float :=
  Throw (TypeError "increment is not available").

(** The amount an update mapping adds to a counter: nothing when the
    counter is not mentioned. *)
Definition amount (updates : gmap string float) (field : string) : float :=
  default 0%float (updates !! field).

(** Totals of the two counter families of a session start. *)
Definition captureTotal (updates : gmap string float) : float :=
  (amount updates "sessions_screen" + amount updates "sessions_camera")%float.

Definition purposeTotal (updates : gmap string float) : float :=
  (amount updates "sessions_workflow" + amount updates "sessions_teach_ai")%float.

End UsageLogging.
Export UsageLogging.

(** ** The resolution rules in closed form

    Definitions the statements below are written with: the effective
    original language in the words of the specification, and the result of
    the resolver as a decision table. Both are compared with the code
    ([originalLang_refines], [getResolvedContent_branch]) before they are
    used. *)

Module ResolutionRules.

(** The effective original language as the specification words it: the
    explicit [originalLanguage] when present; otherwise the detected
    language when the declared output language is the "auto" sentinel;
    otherwise the declared output language. Compared with the code in
    [originalLang_refines]. *)
Definition effectiveOriginalLanguage (s : SessionContentDoc) : option string :=
  match originalLanguage s with
  | Some l => Some l
  | None =>
      match content_metadata s with
      | Some m =>
          if bool_decide (output_language m = Some "auto")
          then detected_language m
          else output_language m
      | None => None
      end
  end.

(** The four shapes a result can take, as functions of what they read. *)
Definition canonicalResult (s : SessionContentDoc) (lang : option string)
    (fs : FreshnessStatus) : ResolvedContentResult :=
  {| contentToUse := content s;
     dir := getTextDirection lang;
     languageUsed := default "en" (effectiveOriginalLanguage s);
     freshnessStatus := fs |}.

Definition translatedResult (e : TranslationEntry) (L : string)
    (fs : FreshnessStatus) : ResolvedContentResult :=
  {| contentToUse := translatedContent e;
     dir := getTextDirection (Some L);
     languageUsed := L;
     freshnessStatus := fs |}.

(** The branch the code takes on a session with truthy content, read off
    [getResolvedContent] with the member accesses resolved. *)
Definition branchOf (s : SessionContentDoc) (selectedLang : option string)
  : ResolvedContentResult :=
  let originalLang := effectiveOriginalLanguage s in
  let lang := requestedLanguage selectedLang originalLang in
  if negb (truthyStr lang) || bool_decide (lang = originalLang)
  then canonicalResult s lang FsCanonical
  else
    match entryOf (default ∅ (translations s)) lang with
    | None => canonicalResult s lang FsMissing
    | Some e =>
        match status e with
        | TsReady => translatedResult e (narrowed lang) FsReady
        | TsStale => translatedResult e (narrowed lang) FsStale
        | TsInProgress | TsFailed => canonicalResult s lang FsMissing
        end
    end.

(** A session that differs from [s] in its [translations] field only. *)
Definition withTranslations (t : option (gmap string TranslationEntry))
    (s : SessionContentDoc) : SessionContentDoc :=
  {| content := content s;
     content_metadata := content_metadata s;
     originalLanguage := originalLanguage s;
     contentRevision := contentRevision s;
     contentFingerprint := contentFingerprint s;
     translations := t;
     updated_at := updated_at s |}.

(** A session that differs from [s] in its [content] field only. *)
Definition withContent (v : JsValue) (s : SessionContentDoc)
  : SessionContentDoc :=
  {| content := v;
     content_metadata := content_metadata s;
     originalLanguage := originalLanguage s;
     contentRevision := contentRevision s;
     contentFingerprint := contentFingerprint s;
     translations := translations s;
     updated_at := updated_at s |}.

(** What the specification accepts as an outcome of the resolver: no
    result exactly when the session is absent or has no content; otherwise
    a whole document, either the canonical one (freshness canonical or
    missing) or the translated content of a stored entry whose status is
    the freshness reported, in the language of that entry. *)
Definition definedOutcome (session : option SessionContentDoc)
    (r : option ResolvedContentResult) : Prop :=
  match r with
  | None => toBoolean (optMember session content) = false
  | Some res =>
      ∃ s, session = Some s ∧ toBoolean (content s) = true ∧
        ((contentToUse res = content s
          ∧ (freshnessStatus res = FsCanonical ∨ freshnessStatus res = FsMissing))
         ∨ (∃ e, default ∅ (translations s) !! languageUsed res = Some e
              ∧ contentToUse res = translatedContent e
              ∧ ((status e = TsReady ∧ freshnessStatus res = FsReady)
                 ∨ (status e = TsStale ∧ freshnessStatus res = FsStale))))
  end.

End ResolutionRules.
Export ResolutionRules.

(** ** The second language helper of the video artifact schemas *)

Module VideoArtifactsLanguage.

(** [getEffectiveLanguage]: the metadata may be [undefined] or [null]. *)
Definition getEffectiveLanguage (metadata : option ContentMetadata)
  : Completion (option string) :=
  if negb (bool_decide (is_Some metadata)) then mret None
  else
    outputLanguage ← member metadata output_language;
    if bool_decide (outputLanguage = Some "auto")
    then member metadata detected_language
    else member metadata output_language.

End VideoArtifactsLanguage.
Export VideoArtifactsLanguage.

(** ** Usage logging constants *)

Module UsageConstants.

Definition ADMIN_PANEL_ACTIONS : list string :=
  [ "session"; "session_complete"; "workflow_edit"; "publish"; "unpublish";
    "export"; "chatbot_message"; "enrich_click"; "daily_active_user" ].

Definition MCP_ACTIONS : list string :=
  [ "mcp_context_list"; "mcp_context_get"; "mcp_context_search";
    "mcp_context_modify"; "mcp_context_generate" ].

Definition VIDEO_FORGE_ACTIONS : list string :=
  [ "video_forge_analysis"; "video_forge_augmentation" ].

Definition BILLING_ACTIONS : list string :=
  [ "billing_page_viewed"; "billing_plan_selected";
    "billing_checkout_started"; "billing_checkout_completed";
    "billing_free_extension"; "subscription_created";
    "subscription_updated"; "subscription_canceled";
    "payment_succeeded"; "payment_failed" ].

Definition ALL_ACTIONS : list string :=
  ADMIN_PANEL_ACTIONS ++ MCP_ACTIONS ++ VIDEO_FORGE_ACTIONS ++ BILLING_ACTIONS.

(** [list.includes(x)] on an array of strings. *)
Definition includes (l : list string) (x : string) : bool :=
  bool_decide (x ∈ l).

Definition isValidAction (action : string) : bool :=
  includes ALL_ACTIONS action.

Definition isAdminPanelAction (action : string) : bool :=
  includes ADMIN_PANEL_ACTIONS action.

Definition isMcpAction (action : string) : bool :=
  includes MCP_ACTIONS action.

Definition isVideoForgeAction (action : string) : bool :=
  includes VIDEO_FORGE_ACTIONS action.

Definition isBillingAction (action : string) : bool :=
  includes BILLING_ACTIONS action.

Definition USAGE_SERVICES : list string :=
  [ "admin-panel"; "flingoos-mcp"; "flingoos-mcp-tools"; "flingoos-ambient";
    "video-forge" ].

Module USAGE_PATHS.
Definition BASE : string := "usage".
Module EVENTS.
Definition ROOT : string := "usage/events".
Definition DATA : string := "usage/events/data".
End EVENTS.
Module COUNTERS.
Definition ROOT : string := "usage/counters".
Definition GLOBAL_TOTALS : string := "usage/counters/global/totals".
Definition DAILY : string := "usage/counters/daily".
Definition ORGS_SUBCOLLECTION : string := "orgs".
End COUNTERS.
Module DAILY_USERS.
Definition ROOT : string := "usage/daily_users".
Definition RECORDS : string := "usage/daily_users/records".
End DAILY_USERS.
End USAGE_PATHS.

Definition getDailyCounterPath (periodId : string) : string :=
  USAGE_PATHS.COUNTERS.DAILY +:+ "/" +:+ periodId.

Definition getOrgCounterPath (periodId orgId : string) : string :=
  USAGE_PATHS.COUNTERS.DAILY +:+ "/" +:+ periodId +:+ "/"
    +:+ USAGE_PATHS.COUNTERS.ORGS_SUBCOLLECTION +:+ "/" +:+ orgId.

Definition getDailyUserDocId (periodId userId : string) : string :=
  periodId +:+ "_" +:+ userId.

Definition ALL_COUNTER_FIELDS : list string :=
  [ "sessions_started"; "sessions_completed"; "sessions_failed";
    "sessions_screen"; "sessions_camera";
    "sessions_workflow"; "sessions_teach_ai";
    "publishes"; "unpublishes"; "exports"; "n8n_exports";
    "workflow_edits"; "chatbot_messages"; "enrich_clicks";
    "total_session_duration_ms"; "unique_users";
    "mcp_context_list"; "mcp_context_get"; "mcp_context_search";
    "mcp_context_modify"; "mcp_context_generate"; "mcp_total";
    "video_forge_input_tokens"; "video_forge_output_tokens";
    "video_forge_cost_usd";
    "active_subscriptions_individual"; "active_subscriptions_business";
    "new_subscriptions"; "canceled_subscriptions"; "billing_page_views";
    "checkout_started"; "checkout_completed"; "free_extensions_claimed";
    "revenue_usd" ].

End UsageConstants.
Export UsageConstants.

(** ** Period and event identifiers (server-side usage logging) *)

Module UsagePeriods.

(** What [getDailyPeriodId] reads of a [Date]: the results of
    [getUTCFullYear], [getUTCMonth] (from 0) and [getUTCDate], which are
    integers on a valid date. An invalid date, whose getters give NaN, is
    outside this type. *)
Record UtcDate : Type := {
  getUTCFullYear : Z;
  getUTCMonth : nat;
  getUTCDate : nat;
}.

(** [fill.repeat(k)] for a one-character [fill]. *)
Fixpoint repeatChar (k : nat) (fill : Ascii.ascii) : string :=
  match k with
  | O => ""
  | S k' => String fill (repeatChar k' fill)
  end.

(** [s.padStart(targetLength, fill)] for a one-character [fill]. *)
Definition padStart (targetLength : nat) (fill : Ascii.ascii) (s : string)
  : string :=
  repeatChar (targetLength - String.length s) fill +:+ s.

(** [getDailyPeriodId(date)]; [String(n)] and the template print an integer
    in decimal, as [pretty] does. *)
Definition getDailyPeriodId (date : UtcDate) : string :=
  let year := getUTCFullYear date in
  let month := padStart 2 "0"%char (pretty (getUTCMonth date + 1)) in
  let day := padStart 2 "0"%char (pretty (getUTCDate date)) in
  pretty year +:+ "-" +:+ month +:+ "-" +:+ day.

(** [generateEventId()], given the identifier that [uuidv4()] returns. *)
Definition generateEventId (uuid : string) : string :=
  "evt_" +:+ uuid.

End UsagePeriods.
Export UsagePeriods.

(** ** Writing usage events (server-side usage logging) *)

Module UsageEvents.

Section Firestore.

(** [V] is what [increment] returns, [T] what [serverTimestamp] returns. *)
Context {V T : Type}.

(** The values of a document handed to the store. *)
Inductive FieldValue : Type :=
| FData (v : JsValue)
| FProperties (bag : gmap string JsValue)
| FIncrement (v : V)
| FTimestamp (t : T).

Inductive FirestoreCall : Type :=
| AddDocument (collectionPath : string) (data : gmap string FieldValue)
| SetDocumentMerge (documentPath : string) (data : gmap string FieldValue).

(** [FirestoreOperations]. A write sees the calls made before it, so that
    the store may answer by its state; its promise resolves or rejects. *)
Record FirestoreOperations : Type := {
  addDocument : list FirestoreCall → string → gmap string FieldValue
                → Completion unit;
  setDocumentMerge : list FirestoreCall → string → gmap string FieldValue
                     → Completion unit;
  createDocument : option (list FirestoreCall → string
                           → gmap string FieldValue → Completion unit);
  increment : float → Completion V;
  serverTimestamp : Completion T;
}.

(** An asynchronous computation: from the calls made so far to the calls
    made at its end and its completion. *)
Definition Io (A : Type) : Type :=
  list FirestoreCall → list FirestoreCall * Completion A.

#[global] Instance Io_ret : MRet Io := λ A a calls, (calls, Normal a).
#[global] Instance Io_bind : MBind Io :=
  λ A B f m calls,
    match m calls with
    | (calls', Normal a) => f a calls'
    | (calls', Throw e) => (calls', Throw e)
    end.

(** A synchronous step inside an asynchronous function. *)
Definition sync {A : Type} (c : Completion A) : Io A :=
  λ calls, (calls, c).

(** [await firestore.addDocument(path, data)] *)
Definition awaitAddDocument (firestore : FirestoreOperations)
    (path : string) (data : gmap string FieldValue) : Io unit :=
  λ calls, ((calls ++ [AddDocument path data])%list,
            addDocument firestore calls path data).

(** [await firestore.setDocumentMerge(path, data)] *)
Definition awaitSetDocumentMerge (firestore : FirestoreOperations)
    (path : string) (data : gmap string FieldValue) : Io unit :=
  λ calls, ((calls ++ [SetDocumentMerge path data])%list,
            setDocumentMerge firestore calls path data).

Record UsageLogOptions : Type := {
  action : string;
  userId : string;
  userEmail : option string;
  orgId : string;
  service : string;
  component : option string;
  properties : option (gmap string JsValue);
}.

Record McpLogOptions : Type := {
  mcpAction : string;
  mcpUserId : string;
  mcpUserEmail : option string;
  mcpOrgId : string;
  mcpComponent : string;
  mcpProperties : option (gmap string JsValue);
}.

Record LogResult : Type := {
  success : bool;
  event_id : string;
  period_id : string;
}.

Definition isUndefined (v : JsValue) : bool :=
  match v with
  | JUndefined => true
  | _ => false
  end.

(** [a || b] on strings, [a] possibly absent. *)
Definition orElse (a : option string) (b : string) : string :=
  if truthyStr a then default b a else b.

(** [options.properties ? Object.fromEntries(Object.entries(...).filter(
    ([, v]) => v !== undefined)) : null] *)
Definition cleanProperties (options : UsageLogOptions)
  : option (gmap string JsValue) :=
  filter (λ kv, isUndefined kv.2 = false) <$> properties options.

(** The [eventData] literal of [logUsageEvent]. *)
Definition eventData (options : UsageLogOptions) (periodId eventId : string)
    (timestamp : T) : gmap string FieldValue :=
  let clean := cleanProperties options in
  <[ "period_id" := FData (JStr periodId) ]>
  (<[ "properties" :=
        if bool_decide (0 < size (default ∅ clean))%nat
        then match clean with
             | Some bag => FProperties bag
             | None => FData JNull
             end
        else FData JNull ]>
  (<[ "component" :=
        FData (if truthyStr (component options)
               then JStr (default "" (component options)) else JNull) ]>
  (<[ "user_id" := FData (JStr (userId options)) ]>
  (<[ "event_id" := FData (JStr eventId) ]>
  (<[ "service" := FData (JStr (service options)) ]>
  (<[ "org_id" := FData (JStr (orgId options)) ]>
  (<[ "user_email" :=
        FData (JStr (orElse (userEmail options) (userId options))) ]>
  (<[ "timestamp" := FTimestamp timestamp ]>
  (<[ "action" := FData (JStr (action options)) ]> ∅))))))))).

(** [{ ...fields, ...counterUpdates, last_updated: timestamp }]: the
    counters are spread over the fields written before them, and
    [last_updated] is written last. *)
Definition counterData (fields : gmap string FieldValue)
    (counterUpdates : gmap string V) (timestamp : T)
  : gmap string FieldValue :=
  <[ "last_updated" := FTimestamp timestamp ]>
    ((FIncrement <$> counterUpdates) ∪ fields).

(** [logUsageEvent(options, firestore)]; [now] is the date that
    [new Date()] gives and [uuid] the identifier that [uuidv4()] gives. *)
Definition logUsageEvent (now : UtcDate) (uuid : string)
    (options : UsageLogOptions) (firestore : FirestoreOperations)
  : Io LogResult :=
  let periodId := getDailyPeriodId now in
  let eventId := generateEventId uuid in
  timestamp ← sync (serverTimestamp firestore);
  _ ← awaitAddDocument firestore "usage/events/data"
        (eventData options periodId eventId timestamp);
  counterUpdates ← sync (getCounterUpdates (increment firestore)
                           (action options) (properties options));
  _ ← awaitSetDocumentMerge firestore "usage/counters/global/totals"
        (counterData ∅ counterUpdates timestamp);
  _ ← awaitSetDocumentMerge firestore
        ("usage/counters/daily/" +:+ periodId)
        (counterData {[ "period_id" := FData (JStr periodId) ]}
           counterUpdates timestamp);
  _ ← awaitSetDocumentMerge firestore
        ("usage/counters/daily/" +:+ periodId +:+ "/orgs/"
           +:+ orgId options)
        (counterData (<[ "org_id" := FData (JStr (orgId options)) ]>
                        {[ "period_id" := FData (JStr periodId) ]})
           counterUpdates timestamp);
  mret {| success := true; event_id := eventId; period_id := periodId |}.

(** [{ ...options, service: 'flingoos-mcp' }] *)
Definition mcpOptions (options : McpLogOptions) : UsageLogOptions :=
  {| action := mcpAction options;
     userId := mcpUserId options;
     userEmail := mcpUserEmail options;
     orgId := mcpOrgId options;
     service := "flingoos-mcp";
     component := Some (mcpComponent options);
     properties := mcpProperties options |}.

(** [logMcpUsage(options, firestore)]: the [try] block awaits
    [logUsageEvent] and the [catch] block swallows what it raises. The two
    [console.error] lines, which write to the log and raise nothing, are
    left out. *)
Definition logMcpUsage (now : UtcDate) (uuid : string)
    (options : McpLogOptions) (firestore : FirestoreOperations) : Io unit :=
  λ calls,
    match logUsageEvent now uuid (mcpOptions options) firestore calls with
    | (calls', Normal _) => (calls', Normal tt)
    | (calls', Throw _) => (calls', Normal tt)
    end.

(** The path a call writes to. *)
Definition callPath (c : FirestoreCall) : string :=
  match c with
  | AddDocument path _ => path
  | SetDocumentMerge path _ => path
  end.

Definition callData (c : FirestoreCall) : gmap string FieldValue :=
  match c with
  | AddDocument _ data => data
  | SetDocumentMerge _ data => data
  end.

Definition isAddDocument (c : FirestoreCall) : bool :=
  match c with
  | AddDocument _ _ => true
  | SetDocumentMerge _ _ => false
  end.

(** The four writes of [logUsageEvent], by kind and by path, with the paths
    as the constants module builds them. *)
Definition plannedWrites (now : UtcDate) (options : UsageLogOptions)
  : list (bool * string) :=
  [ (true, USAGE_PATHS.EVENTS.DATA);
    (false, USAGE_PATHS.COUNTERS.GLOBAL_TOTALS);
    (false, getDailyCounterPath (getDailyPeriodId now));
    (false, getOrgCounterPath (getDailyPeriodId now) (orgId options)) ].

(** A store that accepts every write. *)
Definition acceptsAll (firestore : FirestoreOperations) : Prop :=
  ∀ calls path data,
    addDocument firestore calls path data = Normal tt
    ∧ setDocumentMerge firestore calls path data = Normal tt.

(** [properties?.[key]] of the options. *)
Definition optionProperty (options : UsageLogOptions) (key : string)
  : option JsValue :=
  properties options ≫= (.!! key).

End Firestore.

Arguments FieldValue : clear implicits.
Arguments FirestoreCall : clear implicits.
Arguments FirestoreOperations : clear implicits.

End UsageEvents.
Export UsageEvents.

(** ** Example stores *)

Module EventExamples.

(** A store that accepts every write, with the increment function of the
    test suite. *)
Definition memoryStore : FirestoreOperations float string :=
  {| addDocument := λ _ _ _, Normal tt;
     setDocumentMerge := λ _ _ _, Normal tt;
     createDocument := None;
     increment := mockIncrement;
     serverTimestamp := Normal "server-time" |}.

(** A store that rejects every write. *)
Definition offlineStore : FirestoreOperations float string :=
  {| addDocument := λ _ _ _, Throw (TypeError "unavailable");
     setDocumentMerge := λ _ _ _, Throw (TypeError "unavailable");
     createDocument := None;
     increment := mockIncrement;
     serverTimestamp := Normal "server-time" |}.

(** A store that accepts every write, with an increment function that
    raises. *)
Definition brokenIncrementStore : FirestoreOperations float string :=
  {| addDocument := λ _ _ _, Normal tt;
     setDocumentMerge := λ _ _ _, Normal tt;
     createDocument := None;
     increment := failingIncrement;
     serverTimestamp := Normal "server-time" |}.

Definition january13 : UtcDate :=
  {| getUTCFullYear := 2026; getUTCMonth := 0; getUTCDate := 13 |}.

Definition sessionEvent : UsageLogOptions :=
  {| action := "session";
     userId := "user123";
     userEmail := None;
     orgId := "test-org";
     service := "admin-panel";
     component := None;
     properties := Some {[ "recording_source" := JStr "screen";
                           "output_type" := JStr "workflow";
                           "note" := JUndefined ]} |}.

Definition contextGet : McpLogOptions :=
  {| mcpAction := "mcp_context_get";
     mcpUserId := "user123";
     mcpUserEmail := Some "user@example.com";
     mcpOrgId := "test-org";
     mcpComponent := "context-get";
     mcpProperties := Some {[ "context_id" := JStr "ctx";
                              "session_type" := JUndefined ]} |}.

End EventExamples.

(** ** Statements about completions and counter mappings *)

Module CounterRules.

(** [ensures c P]: when [c] completes normally, its value satisfies [P]. *)
Definition ensures {A : Type} (c : Completion A) (P : A → Prop) : Prop :=
  match c with
  | Normal a => P a
  | Throw _ => True
  end.

(** [returns c P]: [c] completes normally, with a value that satisfies
    [P]. *)
Definition returns {A : Type} (c : Completion A) (P : A → Prop) : Prop :=
  ∃ a, c = Normal a ∧ P a.

(** The counters that [getCounterUpdates] sets to [increment(1)]. *)
Definition unitCounters : list string :=
  [ "sessions_started"; "sessions_screen"; "sessions_camera";
    "sessions_workflow"; "sessions_teach_ai"; "sessions_completed";
    "workflow_edits"; "publishes"; "exports"; "chatbot_messages";
    "enrich_clicks"; "unique_users";
    "mcp_context_list"; "mcp_context_get"; "mcp_context_search";
    "mcp_context_modify"; "mcp_total" ].

(** The counters that accumulate a numeric property. *)
Definition accumulators : list string :=
  [ "total_session_duration_ms"; "video_forge_input_tokens";
    "video_forge_output_tokens"; "video_forge_cost_usd" ].

(** An increment function that accepts positive amounts only: it raises on
    zero, on a negative number and on NaN. *)
Definition positiveIncrement (n : float) : Completion float :=
  if PrimFloat.ltb 0 n then Normal n
  else Throw (TypeError "increment by a non-positive amount").

End CounterRules.
Export CounterRules.

(** ** Statements about identifiers and paths *)

Module PathRules.

(** [s.includes(c)] for a character [c]. *)
Fixpoint occurs (c : Ascii.ascii) (s : string) : bool :=
  match s with
  | EmptyString => false
  | String a rest => Ascii.eqb a c || occurs c rest
  end.

(** The characters of a period identifier: decimal digits and the dash. *)
Definition periodChar (a : Ascii.ascii) : bool :=
  occurs a "0123456789-".

Fixpoint allChars (P : Ascii.ascii → bool) (s : string) : bool :=
  match s with
  | EmptyString => true
  | String a rest => P a && allChars P rest
  end.

(** A calendar date as the getters of a valid [Date] give it. *)
Definition calendarDate (d : UtcDate) : Prop :=
  (getUTCMonth d < 12)%nat ∧ (1 ≤ getUTCDate d ≤ 31)%nat.

End PathRules.
Export PathRules.

(** ** Statements about what the resolver reads *)

Module ResolutionReads.

(** Two lookups that serve the same: both absent, or two entries with the
    same translated content and status (their timestamps, source revision
    and fingerprint, model and error may differ). *)
Definition sameServing (e e' : option TranslationEntry) : Prop :=
  match e, e' with
  | Some a, Some b =>
      translatedContent a = translatedContent b ∧ status a = status b
  | None, None => True
  | _, _ => False
  end.

(** Two sessions that agree on the fields the resolver reads for a
    selector: content, language metadata and override, and the entry of the
    requested language. *)
Definition sameReads (selectedLang : option string)
    (s s' : SessionContentDoc) : Prop :=
  content s = content s'
  ∧ content_metadata s = content_metadata s'
  ∧ originalLanguage s = originalLanguage s'
  ∧ let lang := requestedLanguage selectedLang (effectiveOriginalLanguage s) in
    sameServing (entryOf (default ∅ (translations s)) lang)
                (entryOf (default ∅ (translations s')) lang).

End ResolutionReads.
Export ResolutionReads.

(** ** Worked examples *)

Module Examples.

Definition guide (title : string) : JsValue := JObj [("title", JStr title)].

Definition esEntry : TranslationEntry :=
  {| translatedContent := guide "Guia";
     translatedAt := "2024-01-01T00:00:00Z";
     sourceRevision := 1;
     sourceFingerprint := "abc";
     status := TsReady;
     model := None;
     error := None |}.

Definition session : SessionContentDoc :=
  {| content := guide "Guide";
     content_metadata := Some {| output_language := Some "en";
                                 detected_language := None |};
     originalLanguage := None;
     contentRevision := None;
     contentFingerprint := None;
     translations := Some {[ "es" := esEntry ]};
     updated_at := None |}.

Definition entry (title : string) (st : TranslationStatus) : TranslationEntry :=
  {| translatedContent := guide title;
     translatedAt := "2024-02-01T00:00:00Z";
     sourceRevision := 2;
     sourceFingerprint := "def";
     status := st;
     model := None;
     error := match st with TsFailed => Some "quota" | _ => None end |}.

(** A session authored in French (declared "auto", detected "fr") with
    one translation entry in each status. *)
Definition library : SessionContentDoc :=
  {| content := guide "Guide";
     content_metadata := Some {| output_language := Some "auto";
                                 detected_language := Some "fr" |};
     originalLanguage := None;
     contentRevision := Some 3%float;
     contentFingerprint := Some "ghi";
     translations := Some {[ "es" := entry "Guia" TsReady;
                             "he" := entry "Madrikh" TsStale;
                             "de" := entry "Leitfaden" TsInProgress;
                             "ja" := entry "Gaido" TsFailed ]};
     updated_at := None |}.

Example resolve_es :
  getResolvedContent (Some session) (Some "es")
  = Normal (Some {| contentToUse := guide "Guia"; dir := DirLtr;
                    languageUsed := "es"; freshnessStatus := FsReady |}).
Proof. vm_compute. reflexivity. Qed.

Example resolve_de :
  getResolvedContent (Some session) (Some "de")
  = Normal (Some {| contentToUse := guide "Guide"; dir := DirLtr;
                    languageUsed := "en"; freshnessStatus := FsMissing |}).
Proof. vm_compute. reflexivity. Qed.

Example direction_samples :
  getTextDirection (Some "he") = DirRtl ∧ getTextDirection (Some "ar") = DirRtl
  ∧ getTextDirection (Some "en") = DirLtr ∧ getTextDirection (Some "es") = DirLtr
  ∧ getTextDirection (Some "fr") = DirLtr
  ∧ getTextDirection None = DirAuto ∧ getTextDirection (Some "auto") = DirAuto.
Proof. vm_compute. repeat split. Qed.

End Examples.

(** ** Properties of the text direction *)

Module VideoArtifactsFacts.

Lemma rtl_languages_spec (l : string) :
  l ∈ RTL_LANGUAGES ↔ l = "ar" ∨ l = "he".
Proof. unfold RTL_LANGUAGES. set_solver. Qed.

Lemma truthyStr_true (o : option string) :
  truthyStr o = true ↔ ∃ l, o = Some l ∧ l ≠ "".
Proof.
  destruct o as [l|]; simpl.
  - rewrite negb_true_iff, String.eqb_neq. naive_solver.
  - naive_solver.
Qed.

Lemma truthyStr_false (o : option string) :
  truthyStr o = false ↔ o = None ∨ o = Some "".
Proof.
  destruct o as [l|]; simpl.
  - rewrite negb_false_iff, String.eqb_eq. naive_solver.
  - naive_solver.
Qed.

(** The three outcomes of [getTextDirection], each characterised by its
    argument. *)
Lemma getTextDirection_auto_iff (language : option string) :
  getTextDirection language = DirAuto
  ↔ language = None ∨ language = Some "" ∨ language = Some "auto".
Proof.
  unfold getTextDirection.
  destruct (truthyStr language) eqn:Ht; simpl.
  - apply truthyStr_true in Ht as (l & -> & Hl).
    case_bool_decide as Ha; [naive_solver|].
    simpl. case_bool_decide; naive_solver.
  - apply truthyStr_false in Ht. naive_solver.
Qed.

Lemma getTextDirection_rtl_iff (language : option string) :
  getTextDirection language = DirRtl
  ↔ ∃ l, language = Some l ∧ l ∈ RTL_LANGUAGES.
Proof.
  unfold getTextDirection.
  destruct (truthyStr language) eqn:Ht; simpl.
  - apply truthyStr_true in Ht as (l & -> & Hl).
    case_bool_decide as Ha; simpl.
    + split; [done|]. intros (l' & [= <-] & Hin).
      apply rtl_languages_spec in Hin. naive_solver.
    + case_bool_decide; naive_solver.
  - apply truthyStr_false in Ht. split; [done|].
    intros (l & -> & Hin). apply rtl_languages_spec in Hin. naive_solver.
Qed.

Lemma getTextDirection_ltr_iff (language : option string) :
  getTextDirection language = DirLtr
  ↔ ∃ l, language = Some l ∧ l ≠ "" ∧ l ≠ "auto" ∧ l ∉ RTL_LANGUAGES.
Proof.
  unfold getTextDirection.
  destruct (truthyStr language) eqn:Ht; simpl.
  - apply truthyStr_true in Ht as (l & -> & Hl).
    case_bool_decide as Ha; simpl; [naive_solver|].
    case_bool_decide; naive_solver.
  - apply truthyStr_false in Ht. naive_solver.
Qed.

Lemma output_languages_not_unlisted (l : string) :
  l ∉ OutputLanguageSchema → l ≠ "auto" ∧ l ∉ RTL_LANGUAGES.
Proof.
  unfold OutputLanguageSchema. rewrite !not_elem_of_cons.
  rewrite rtl_languages_spec. naive_solver.
Qed.

(** C5, as the code has it. The direction is "auto" exactly for an absent
    or empty language and for the sentinel "auto"; it is "rtl" exactly for
    the members of the right-to-left set, which are "ar" and "he"; it is
    "ltr" for every other language code, "en", "es" and "fr" among them,
    and also for a code outside the enumerated languages. *)
Theorem getTextDirection_cases (language : option string) :
  (getTextDirection language = DirAuto
   ↔ language = None ∨ language = Some "" ∨ language = Some "auto")
  ∧ (getTextDirection language = DirRtl
     ↔ ∃ l, language = Some l ∧ l ∈ RTL_LANGUAGES)
  ∧ (getTextDirection language = DirLtr
     ↔ ∃ l, language = Some l ∧ l ≠ "" ∧ l ≠ "auto" ∧ l ∉ RTL_LANGUAGES)
  ∧ (∀ l, l ∈ RTL_LANGUAGES ↔ l = "ar" ∨ l = "he")
  ∧ (∀ l, l = "en" ∨ l = "es" ∨ l = "fr" → getTextDirection (Some l) = DirLtr)
  ∧ (∀ l, l ≠ "" → l ∉ OutputLanguageSchema →
          getTextDirection (Some l) = DirLtr).
Proof.
  split; [apply getTextDirection_auto_iff|].
  split; [apply getTextDirection_rtl_iff|].
  split; [apply getTextDirection_ltr_iff|].
  split; [apply rtl_languages_spec|]. split.
  - intros l [-> | [-> | ->]]; reflexivity.
  - intros l Hl Hout. apply getTextDirection_ltr_iff.
    apply output_languages_not_unlisted in Hout. naive_solver.
Qed.

Lemma getTextDirection_cases_witness :
  getTextDirection (Some "sw") = DirLtr.
Proof.
  apply (getTextDirection_cases None).
  - discriminate.
  - unfold OutputLanguageSchema. rewrite !not_elem_of_cons.
    repeat split; try discriminate. apply not_elem_of_nil.
Defined.

(** C5, the part that fails: "sw" is a language code in none of the
    enumerated sets, and its direction is "ltr", not "auto". *)
Lemma getTextDirection_unlisted_code_not_auto :
  ("sw" ∉ OutputLanguageSchema) ∧ ("sw" ∉ RTL_LANGUAGES)
  ∧ getTextDirection (Some "sw") = DirLtr
  ∧ getTextDirection (Some "sw") ≠ DirAuto.
Proof.
  split; [|split; [|split]].
  - unfold OutputLanguageSchema. rewrite !not_elem_of_cons.
    repeat split; try discriminate. apply not_elem_of_nil.
  - rewrite rtl_languages_spec. intros [?|?]; discriminate.
  - reflexivity.
  - discriminate.
Qed.

End VideoArtifactsFacts.

(** ** Properties of the content resolution *)

Module SchemasFacts.

Lemma getEffectiveOriginalLanguage_total (metadata : option ContentMetadata) :
  getEffectiveOriginalLanguage metadata
  = Normal (match metadata with
            | Some m =>
                if bool_decide (output_language m = Some "auto")
                then detected_language m
                else output_language m
            | None => None
            end).
Proof.
  destruct metadata as [m|]; [|reflexivity].
  unfold getEffectiveOriginalLanguage.
  rewrite bool_decide_eq_true_2 by eauto. simpl.
  unfold mbind, Completion_bind. by case_bool_decide.
Qed.

(** The code's [originalLang] is the specification's effective original
    language, and computing it raises nothing. *)
Lemma originalLang_refines (s : SessionContentDoc) :
  coalesce (originalLanguage s)
    (metadata ← member (Some s) content_metadata;
     getEffectiveOriginalLanguage metadata)
  = Normal (effectiveOriginalLanguage s).
Proof.
  unfold effectiveOriginalLanguage.
  destruct (originalLanguage s) as [l|]; [reflexivity|]. simpl.
  unfold mbind, Completion_bind. apply getEffectiveOriginalLanguage_total.
Qed.

Lemma requestedLanguage_cases (selectedLang originalLang : option string) :
  (requestedLanguage selectedLang originalLang = originalLang
   ∧ (selectedLang = None ∨ selectedLang = Some "" ∨ selectedLang = Some "auto"))
  ∨ (∃ L, selectedLang = Some L ∧ L ≠ "" ∧ L ≠ "auto"
        ∧ requestedLanguage selectedLang originalLang = Some L).
Proof.
  unfold requestedLanguage.
  destruct (truthyStr selectedLang) eqn:Ht; simpl.
  - apply VideoArtifactsFacts.truthyStr_true in Ht as (L & -> & HL).
    case_bool_decide as Ha; simpl; [left; naive_solver|].
    right. exists L. naive_solver.
  - apply VideoArtifactsFacts.truthyStr_false in Ht. left. naive_solver.
Qed.

Lemma requestedLanguage_code (L : string) (originalLang : option string) :
  L ≠ "" → L ≠ "auto" → requestedLanguage (Some L) originalLang = Some L.
Proof.
  intros H1 H2.
  destruct (requestedLanguage_cases (Some L) originalLang)
    as [[_ ?]|(L' & [= <-] & _ & _ & ->)]; naive_solver.
Qed.

(** With truthy content the code returns the result of [branchOf]. *)
Lemma getResolvedContent_branch (s : SessionContentDoc)
    (selectedLang : option string) :
  toBoolean (content s) = true →
  getResolvedContent (Some s) selectedLang = Normal (Some (branchOf s selectedLang)).
Proof.
  intros Hc. unfold getResolvedContent, branchOf. simpl. rewrite Hc. simpl.
  unfold mbind at 1 2 3, Completion_bind at 1 2 3.
  pose proof (originalLang_refines s) as Ho. simpl in Ho. rewrite Ho.
  set (originalLang := effectiveOriginalLanguage s).
  set (lang := requestedLanguage selectedLang originalLang).
  destruct (negb (truthyStr lang) || bool_decide (lang = originalLang)) eqn:Ha.
  - unfold canonicalResult. do 3 f_equal.
    fold originalLang. destruct originalLang as [o|] eqn:Eo; [reflexivity|].
    simpl. destruct (requestedLanguage_cases selectedLang None)
      as [[Hr _]|(L & -> & HL & HL' & Hr)]; fold lang in Hr; rewrite Hr in *.
    + reflexivity.
    + exfalso. simpl in Ha.
      rewrite orb_false_r, negb_involutive in Ha.
      by apply String.eqb_eq in Ha.
  - simpl. destruct lang as [L|]; [|done].
    destruct (entryOf (default ∅ (translations s)) (Some L)) as [e|] eqn:He.
    + rewrite bool_decide_eq_true_2 by eauto. simpl.
      unfold mbind, Completion_bind.
      destruct (status e); reflexivity.
    + rewrite bool_decide_eq_false_2 by (intros [? [=]]). reflexivity.
Qed.

Lemma getResolvedContent_no_content (session : option SessionContentDoc)
    (selectedLang : option string) :
  toBoolean (optMember session content) = false →
  getResolvedContent session selectedLang = Normal None.
Proof. intros Hc. unfold getResolvedContent. by rewrite Hc. Qed.

Lemma requestedLanguage_same (lang : option string) :
  requestedLanguage lang lang = lang.
Proof. unfold requestedLanguage. by case_match. Qed.

Lemma requestedLanguage_original (selectedLang originalLang : option string) :
  selectedLang = None ∨ selectedLang = Some "auto" ∨ selectedLang = originalLang →
  requestedLanguage selectedLang originalLang = originalLang.
Proof.
  intros [-> | [-> | ->]]; [reflexivity|reflexivity|apply requestedLanguage_same].
Qed.

(** When the requested language differs from the original one, it is the
    selector itself, a non-empty code other than the sentinel. *)
Lemma requestedLanguage_other (selectedLang originalLang : option string)
    (L : string) :
  requestedLanguage selectedLang originalLang = Some L →
  originalLang ≠ Some L →
  selectedLang = Some L ∧ L ≠ "" ∧ L ≠ "auto".
Proof.
  intros Hr Hne.
  destruct (requestedLanguage_cases selectedLang originalLang)
    as [[Hr' _]|(L' & -> & H1 & H2 & Hr')]; rewrite Hr' in Hr.
  - congruence.
  - by injection Hr as ->.
Qed.

Lemma branchOf_other (s : SessionContentDoc) (selectedLang : option string)
    (L : string) :
  requestedLanguage selectedLang (effectiveOriginalLanguage s) = Some L →
  effectiveOriginalLanguage s ≠ Some L →
  branchOf s selectedLang
  = match default ∅ (translations s) !! L with
    | None => canonicalResult s (Some L) FsMissing
    | Some e =>
        match status e with
        | TsReady => translatedResult e L FsReady
        | TsStale => translatedResult e L FsStale
        | TsInProgress | TsFailed => canonicalResult s (Some L) FsMissing
        end
    end.
Proof.
  intros Hr Hne.
  destruct (requestedLanguage_other _ _ _ Hr Hne) as (_ & HL & _).
  unfold branchOf. simpl. rewrite Hr. simpl.
  apply String.eqb_neq in HL as ->. simpl.
  rewrite bool_decide_eq_false_2 by congruence. reflexivity.
Qed.

Lemma getCanonicalContent_total (s : SessionContentDoc) :
  getCanonicalContent (Some s) = Normal (content s).
Proof.
  unfold getCanonicalContent. by rewrite bool_decide_eq_true_2 by eauto.
Qed.

(** C6. [getCanonicalContent] returns the [content] field of a present
    session verbatim, whatever the value and whatever translations the
    session holds (changing the [translations] field does not change the
    result); it returns [undefined] for an absent session and for a
    session without content. The function only reads its argument. *)
Theorem getCanonicalContent_verbatim :
  getCanonicalContent None = Normal JUndefined
  ∧ (∀ s, getCanonicalContent (Some s) = Normal (content s))
  ∧ (∀ s, getCanonicalContent (Some (withContent JUndefined s))
          = Normal JUndefined)
  ∧ (∀ s t, getCanonicalContent (Some (withTranslations t s))
            = getCanonicalContent (Some s)).
Proof.
  split; [reflexivity|]. split; [exact getCanonicalContent_total|]. split.
  - intros s. by rewrite getCanonicalContent_total.
  - intros s t. by rewrite !getCanonicalContent_total.
Qed.

(** C2. On a session with (truthy) canonical content, a selector that is
    absent, the sentinel "auto", or equal to the effective original
    language yields the canonical content with freshness canonical; the
    language used is the effective original language, else the requested
    language, else "en" (the middle fallback never differs from the last
    one here, so it is also the effective original language or "en"). *)
Theorem getResolvedContent_original_language (s : SessionContentDoc)
    (selectedLang : option string) :
  toBoolean (content s) = true →
  selectedLang = None ∨ selectedLang = Some "auto"
    ∨ selectedLang = effectiveOriginalLanguage s →
  let originalLang := effectiveOriginalLanguage s in
  let lang := requestedLanguage selectedLang originalLang in
  getResolvedContent (Some s) selectedLang
  = Normal (Some {| contentToUse := content s;
                    dir := getTextDirection originalLang;
                    languageUsed := default (default "en" lang) originalLang;
                    freshnessStatus := FsCanonical |})
  ∧ default (default "en" lang) originalLang = default "en" originalLang.
Proof.
  intros Hc Hsel originalLang lang.
  assert (Hl : lang = originalLang)
    by (by apply requestedLanguage_original).
  rewrite getResolvedContent_branch by done.
  unfold branchOf. fold originalLang lang. rewrite Hl.
  rewrite (bool_decide_eq_true_2 (originalLang = originalLang)) by done.
  rewrite orb_true_r. unfold canonicalResult. fold originalLang.
  by destruct originalLang.
Qed.

(** C3. When the requested language L is not the effective original
    language and the translation map has an entry for L, a ready entry is
    served with freshness ready and a stale entry is served all the same
    with freshness stale; the language used is L in both cases. *)
Theorem getResolvedContent_translation (s : SessionContentDoc)
    (selectedLang : option string) (L : string) (entry : TranslationEntry) :
  toBoolean (content s) = true →
  requestedLanguage selectedLang (effectiveOriginalLanguage s) = Some L →
  effectiveOriginalLanguage s ≠ Some L →
  default ∅ (translations s) !! L = Some entry →
  (status entry = TsReady →
   getResolvedContent (Some s) selectedLang
   = Normal (Some {| contentToUse := translatedContent entry;
                     dir := getTextDirection (Some L);
                     languageUsed := L;
                     freshnessStatus := FsReady |}))
  ∧ (status entry = TsStale →
     getResolvedContent (Some s) selectedLang
     = Normal (Some {| contentToUse := translatedContent entry;
                       dir := getTextDirection (Some L);
                       languageUsed := L;
                       freshnessStatus := FsStale |})).
Proof.
  intros Hc Hr Hne He.
  rewrite getResolvedContent_branch by done.
  rewrite (branchOf_other _ _ L) by done. rewrite He.
  split; intros ->; reflexivity.
Qed.

(** C4. When the requested language L is not the effective original
    language and the map has no entry for L, or the entry is in progress
    or failed, the canonical content is returned with freshness missing
    and the effective original language (or "en"); the three cases give
    the same result. *)
Theorem getResolvedContent_missing (s : SessionContentDoc)
    (selectedLang : option string) (L : string) :
  toBoolean (content s) = true →
  requestedLanguage selectedLang (effectiveOriginalLanguage s) = Some L →
  effectiveOriginalLanguage s ≠ Some L →
  (default ∅ (translations s) !! L = None
   ∨ ∃ entry, default ∅ (translations s) !! L = Some entry
              ∧ (status entry = TsInProgress ∨ status entry = TsFailed)) →
  getResolvedContent (Some s) selectedLang
  = Normal (Some {| contentToUse := content s;
                    dir := getTextDirection (Some L);
                    languageUsed := default "en" (effectiveOriginalLanguage s);
                    freshnessStatus := FsMissing |}).
Proof.
  intros Hc Hr Hne He.
  rewrite getResolvedContent_branch by done.
  rewrite (branchOf_other _ _ L) by done.
  destruct He as [-> | (entry & -> & [-> | ->])]; reflexivity.
Qed.

Lemma branchOf_defined (s : SessionContentDoc) (selectedLang : option string) :
  toBoolean (content s) = true →
  definedOutcome (Some s) (Some (branchOf s selectedLang)).
Proof.
  intros Hc. exists s. split; [done|]. split; [done|].
  unfold branchOf.
  set (originalLang := effectiveOriginalLanguage s).
  set (lang := requestedLanguage selectedLang originalLang).
  destruct (negb (truthyStr lang) || bool_decide (lang = originalLang)) eqn:Ha.
  { left. simpl. auto. }
  unfold entryOf.
  destruct (default ∅ (translations s) !! narrowed lang) as [e|] eqn:He.
  - destruct (status e) eqn:Hs; simpl;
      [right; exists e; naive_solver.. | left; auto | left; auto].
  - left. simpl. auto.
Qed.

(** C7. [getResolvedContent] completes normally on every session argument
    (absent, without content, without metadata, without translation map,
    without an entry for the language) and every selector: it raises
    nothing, and what it returns is no result exactly for an absent session
    or falsy content, and otherwise one of the defined branches. *)
Theorem getResolvedContent_never_throws (session : option SessionContentDoc)
    (selectedLang : option string) :
  ∃ r, getResolvedContent session selectedLang = Normal r
       ∧ definedOutcome session r.
Proof.
  destruct (toBoolean (optMember session content)) eqn:Hc.
  - destruct session as [s|]; [|discriminate Hc]. simpl in Hc.
    exists (Some (branchOf s selectedLang)). split.
    + by apply getResolvedContent_branch.
    + by apply branchOf_defined.
  - exists None. split; [|exact Hc].
    by apply getResolvedContent_no_content.
Qed.

(** C9. A session whose content is falsy gets no result from the resolver
    for every selector, while the canonical accessor returns that content;
    with content the empty string, zero or [false] the accessor's value is
    present and the resolver still reports no result. *)
Theorem getResolvedContent_falsy_content :
  (∀ (s : SessionContentDoc) (selectedLang : option string),
      toBoolean (content s) = false →
      getResolvedContent (Some s) selectedLang = Normal None
      ∧ getCanonicalContent (Some s) = Normal (content s))
  ∧ (∀ v, v = JStr "" ∨ v = JNum 0 ∨ v = JBool false →
          toBoolean v = false ∧ v ≠ JUndefined ∧ v ≠ JNull)
  ∧ (∃ s : SessionContentDoc,
        content s ≠ JUndefined ∧ content s ≠ JNull
        ∧ getCanonicalContent (Some s) = Normal (content s)
        ∧ ∀ selectedLang, getResolvedContent (Some s) selectedLang = Normal None).
Proof.
  assert (H1 : ∀ (s : SessionContentDoc) (selectedLang : option string),
             toBoolean (content s) = false →
             getResolvedContent (Some s) selectedLang = Normal None
             ∧ getCanonicalContent (Some s) = Normal (content s)).
  { intros s selectedLang Hc. split.
    - by apply getResolvedContent_no_content.
    - apply getCanonicalContent_total. }
  split; [exact H1|]. split.
  - intros v [-> | [-> | ->]]; repeat split; discriminate.
  - exists (withContent (JStr "") Examples.session).
    split; [discriminate|]. split; [discriminate|].
    split; [apply getCanonicalContent_total|].
    intros selectedLang. by apply getResolvedContent_no_content.
Qed.

(** C10. A result with freshness missing carries the canonical content and
    the effective original language (or "en"), but its direction is that
    of the requested language: on a session whose original language is
    "en", a request for "ar" without a stored entry gives the canonical
    content, language "en" and direction rtl. *)
Theorem getResolvedContent_missing_direction :
  (∀ (s : SessionContentDoc) (selectedLang : option string)
     (r : ResolvedContentResult),
      getResolvedContent (Some s) selectedLang = Normal (Some r) →
      freshnessStatus r = FsMissing →
      contentToUse r = content s
      ∧ languageUsed r = default "en" (effectiveOriginalLanguage s)
      ∧ dir r = getTextDirection
                  (requestedLanguage selectedLang (effectiveOriginalLanguage s)))
  ∧ (∀ s : SessionContentDoc,
        toBoolean (content s) = true →
        effectiveOriginalLanguage s = Some "en" →
        default ∅ (translations s) !! "ar" = None →
        getResolvedContent (Some s) (Some "ar")
        = Normal (Some {| contentToUse := content s;
                          dir := DirRtl;
                          languageUsed := "en";
                          freshnessStatus := FsMissing |})).
Proof.
  split.
  - intros s selectedLang r Hr Hm.
    destruct (toBoolean (content s)) eqn:Hc.
    2: { rewrite getResolvedContent_no_content in Hr by done. discriminate. }
    rewrite getResolvedContent_branch in Hr by done.
    injection Hr as <-. revert Hm. unfold branchOf.
    set (originalLang := effectiveOriginalLanguage s).
    set (lang := requestedLanguage selectedLang originalLang).
    destruct (negb (truthyStr lang) || bool_decide (lang = originalLang));
      [discriminate|].
    destruct (entryOf (default ∅ (translations s)) lang) as [e|];
      [destruct (status e)|]; simpl; done.
  - intros s Hc Ho Ht.
    rewrite getResolvedContent_branch by done.
    rewrite (branchOf_other s (Some "ar") "ar") by (by rewrite Ho).
    rewrite Ht. unfold canonicalResult. by rewrite Ho.
Qed.

End SchemasFacts.

(** ** Properties of the usage counters *)

Module UsageLoggingFacts.

Lemma eqb_unhandled (action label : string) :
  action ∉ handledActions → label ∈ handledActions →
  String.eqb action label = false.
Proof. intros Hn Hl. apply String.eqb_neq. by intros ->. Qed.

Lemma handledActions_spec (label : string) :
  label ∈ handledActions ↔
  label = "session" ∨ label = "session_complete" ∨ label = "workflow_edit"
  ∨ label = "publish" ∨ label = "export" ∨ label = "chatbot_message"
  ∨ label = "enrich_click" ∨ label = "daily_active_user"
  ∨ label = "mcp_context_list" ∨ label = "mcp_context_get"
  ∨ label = "mcp_context_search" ∨ label = "mcp_context_modify"
  ∨ label = "video_forge_analysis" ∨ label = "video_forge_augmentation".
Proof.
  unfold handledActions. rewrite !elem_of_cons, elem_of_nil. naive_solver.
Qed.

#[local] Ltac skip_case H :=
  rewrite (eqb_unhandled _ _ H) by (apply handledActions_spec; tauto).

(** C8. An action that is none of the labels of the switch gives the empty
    mapping, for every property bag and every increment function, also one
    that raises: nothing is incremented and nothing is raised. The result
    depends on the arguments alone. *)
Theorem getCounterUpdates_unknown_action {V : Type}
    (increment : float → Completion V) (action : string)
    (properties : option (gmap string JsValue)) :
  action ∉ handledActions →
  getCounterUpdates increment action properties = Normal ∅.
Proof.
  intros H. unfold getCounterUpdates.
  repeat skip_case H. reflexivity.
Qed.

Lemma getCounterUpdates_unknown_action_witness :
  getCounterUpdates failingIncrement "page_view"
    (Some {[ "recording_source" := JStr "screen" ]})
  = Normal ∅.
Proof.
  apply getCounterUpdates_unknown_action.
  unfold handledActions. rewrite !not_elem_of_cons.
  repeat split; try discriminate. apply not_elem_of_nil.
Defined.

Lemma float_zero_not_one : 0%float ≠ 1%float.
Proof.
  intros H. assert (E : PrimFloat.eqb 0 1 = true) by (rewrite H; reflexivity).
  discriminate E.
Qed.

(** C1, at the input of the first test of the suite. A session start with
    an empty, null or undefined property bag increments [sessions_started]
    by one and nothing else: both counter families total zero there, which
    is not the amount added to [sessions_started]. *)
Theorem getCounterUpdates_session_empty_bag :
  let updates : gmap string float := {[ "sessions_started" := 1%float ]} in
  getCounterUpdates mockIncrement "session" (Some ∅) = Normal updates
  ∧ getCounterUpdates mockIncrement "session" None = Normal updates
  ∧ amount updates "sessions_started" = 1%float
  ∧ captureTotal updates = 0%float
  ∧ purposeTotal updates = 0%float
  ∧ captureTotal updates ≠ amount updates "sessions_started"
  ∧ purposeTotal updates ≠ amount updates "sessions_started".
Proof.
  repeat split; try reflexivity; exact float_zero_not_one.
Qed.

(** Whatever the property bag holds, a session start adds one to
    [sessions_started]. *)
Lemma getCounterUpdates_session_started
    (properties : option (gmap string JsValue)) :
  ∃ updates,
    getCounterUpdates mockIncrement "session" properties = Normal updates
    ∧ amount updates "sessions_started" = 1%float.
Proof.
  unfold getCounterUpdates. rewrite String.eqb_refl. unfold sessionUpdates.
  generalize (property properties "recording_source")
             (property properties "output_type")
             (property properties "session_type").
  intros rs ot st.
  destruct (toBoolean rs), (toBoolean ot);
    destruct (isStr rs "screen"), (isStr rs "camera"),
      (isStr ot "workflow"), (isStr ot "teach_ai");
    cbn [negb andb mbind Completion_bind assign mockIncrement mret
         Completion_ret];
    repeat case_match;
    eexists; (split; [reflexivity | by vm_compute]).
Qed.

(** A property bag of the declared type [SessionEventProperties] that
    names at least one of the capture method, the output purpose and the
    legacy session type: there the code keeps both family totals equal to
    the one session started. *)
Lemma getCounterUpdates_session_totals
    (properties : option (gmap string JsValue)) :
  property properties "recording_source"
    ∈ [JUndefined; JStr "screen"; JStr "camera"] →
  property properties "output_type"
    ∈ [JUndefined; JStr "workflow"; JStr "teach_ai"] →
  property properties "session_type"
    ∈ [JUndefined; JStr "screen"; JStr "camera"; JStr "teach_ai"] →
  property properties "recording_source" ≠ JUndefined
    ∨ property properties "output_type" ≠ JUndefined
    ∨ property properties "session_type" ≠ JUndefined →
  ∃ updates,
    getCounterUpdates mockIncrement "session" properties = Normal updates
    ∧ amount updates "sessions_started" = 1%float
    ∧ captureTotal updates = 1%float
    ∧ purposeTotal updates = 1%float.
Proof.
  intros H1 H2 H3 H4. unfold getCounterUpdates, sessionUpdates.
  rewrite !elem_of_cons, elem_of_nil in H1.
  rewrite !elem_of_cons, elem_of_nil in H2.
  rewrite !elem_of_cons, elem_of_nil in H3.
  destruct H1 as [E1 | [E1 | [E1 | []]]];
    destruct H2 as [E2 | [E2 | [E2 | []]]];
    destruct H3 as [E3 | [E3 | [E3 | [E3 | []]]]];
    rewrite E1, E2, E3 in *;
    first [ by destruct H4 as [? | [? | ?]]
          | eexists; split; [reflexivity | by vm_compute] ].
Qed.

Lemma getCounterUpdates_session_totals_witness :
  ∃ updates,
    getCounterUpdates mockIncrement "session"
      (Some {[ "output_type" := JStr "teach_ai" ]}) = Normal updates
    ∧ amount updates "sessions_started" = 1%float
    ∧ captureTotal updates = 1%float
    ∧ purposeTotal updates = 1%float.
Proof.
  apply getCounterUpdates_session_totals.
  - repeat constructor.
  - repeat constructor.
  - repeat constructor.
  - right. left. discriminate.
Defined.

End UsageLoggingFacts.

(** ** The theorems at concrete sessions *)

Module ResolutionInstances.

Import SchemasFacts.

(** Requesting "auto" on the French session: canonical content, in "fr". *)
Lemma getResolvedContent_original_language_witness :
  getResolvedContent (Some Examples.library) (Some "auto")
  = Normal (Some {| contentToUse := Examples.guide "Guide";
                    dir := DirLtr;
                    languageUsed := "fr";
                    freshnessStatus := FsCanonical |}).
Proof.
  refine (proj1 (getResolvedContent_original_language
                   Examples.library (Some "auto") _ _)).
  - reflexivity.
  - right. left. reflexivity.
Defined.

(** Requesting "he": the stale Hebrew entry is served, right to left. *)
Lemma getResolvedContent_translation_witness :
  getResolvedContent (Some Examples.library) (Some "he")
  = Normal (Some {| contentToUse := Examples.guide "Madrikh";
                    dir := DirRtl;
                    languageUsed := "he";
                    freshnessStatus := FsStale |}).
Proof.
  apply (getResolvedContent_translation Examples.library (Some "he") "he"
           (Examples.entry "Madrikh" TsStale)).
  - reflexivity.
  - reflexivity.
  - discriminate.
  - reflexivity.
  - reflexivity.
Defined.

(** Requesting "ja": the failed entry is passed over for the canonical
    content. *)
Lemma getResolvedContent_missing_witness :
  getResolvedContent (Some Examples.library) (Some "ja")
  = Normal (Some {| contentToUse := Examples.guide "Guide";
                    dir := DirLtr;
                    languageUsed := "fr";
                    freshnessStatus := FsMissing |}).
Proof.
  apply (getResolvedContent_missing Examples.library (Some "ja") "ja").
  - reflexivity.
  - reflexivity.
  - discriminate.
  - right. exists (Examples.entry "Gaido" TsFailed). split.
    + reflexivity.
    + right. reflexivity.
Defined.

(** Content zero: the accessor returns it, the resolver returns nothing. *)
Lemma getResolvedContent_falsy_content_witness :
  getResolvedContent (Some (withContent (JNum 0) Examples.library)) (Some "es")
  = Normal None
  ∧ getCanonicalContent (Some (withContent (JNum 0) Examples.library))
    = Normal (JNum 0).
Proof.
  apply (proj1 getResolvedContent_falsy_content
           (withContent (JNum 0) Examples.library) (Some "es")).
  reflexivity.
Defined.

(** The English session asked for Arabic, which it does not have. *)
Lemma getResolvedContent_missing_direction_witness :
  getResolvedContent (Some Examples.session) (Some "ar")
  = Normal (Some {| contentToUse := Examples.guide "Guide";
                    dir := DirRtl;
                    languageUsed := "en";
                    freshnessStatus := FsMissing |}).
Proof.
  apply (proj2 getResolvedContent_missing_direction Examples.session).
  - reflexivity.
  - reflexivity.
  - reflexivity.
Defined.

End ResolutionInstances.

(** ** Further properties of the usage counters *)

Module CounterUpdatesFacts.

Lemma ensures_bind {A B : Type} (m : Completion A) (f : A → Completion B)
    (Q : B → Prop) :
  ensures m (λ a, ensures (f a) Q) → ensures (m ≫= f) Q.
Proof. by destruct m. Qed.

Lemma ensures_ret {A : Type} (a : A) (Q : A → Prop) :
  Q a → ensures (mret a) Q.
Proof. done. Qed.

Lemma ensures_weaken {A : Type} (c : Completion A) (P Q : A → Prop) :
  ensures c P → (∀ a, P a → Q a) → ensures c Q.
Proof. destruct c; simpl; auto. Qed.

Lemma ensures_normal {A : Type} (c : Completion A) (P : A → Prop) (a : A) :
  ensures c P → c = Normal a → P a.
Proof. by intros H ->. Qed.

Lemma positiveNumber_Some (v : JsValue) (x : float) :
  positiveNumber v = Some x ↔ v = JNum x ∧ PrimFloat.ltb 0 x = true.
Proof.
  destruct v; simpl; try (split; [discriminate | by intros [? _]]).
  destruct (PrimFloat.ltb 0 x0) eqn:Hx; split.
  - by intros [= ->].
  - by intros [[= ->] _].
  - discriminate.
  - intros [[= ->] Hx']. congruence.
Qed.

Section Invariant.

Context {V : Type} (increment : float → Completion V).
Context (I : gmap string V → Prop) (ok : string → float → Prop).
Hypothesis I_insert : ∀ field n u v,
  increment n = Normal v → ok field n → I u → I (<[field := v]> u).
Hypothesis ok_unit : ∀ field, field ∈ unitCounters → ok field 1%float.
Hypothesis ok_accumulate : ∀ field x,
  field ∈ accumulators → PrimFloat.ltb 0 x = true → ok field x.

Lemma assign_step (field : string) (n : float) (u : gmap string V)
    (Q : gmap string V → Prop) :
  ok field n → I u → (∀ u', I u' → Q u') →
  ensures (assign increment field n u) Q.
Proof.
  intros Hok Hu HQ. unfold assign.
  destruct (increment n) as [v|e] eqn:Hv; simpl; [|done].
  apply HQ. by eapply I_insert.
Qed.

Lemma assignPositive_step (field : string) (v : JsValue) (u : gmap string V)
    (Q : gmap string V → Prop) :
  field ∈ accumulators → I u → (∀ u', I u' → Q u') →
  ensures (assignPositive increment field v u) Q.
Proof.
  intros Hf Hu HQ. unfold assignPositive.
  destruct (positiveNumber v) as [x|] eqn:Hx.
  - apply positiveNumber_Some in Hx as [_ Hx].
    apply assign_step; auto.
  - simpl. by apply HQ.
Qed.

#[local] Ltac member_of_list :=
  apply (bool_decide_unpack _); by vm_compute.

#[local] Ltac step :=
  lazymatch goal with
  | |- ensures (mbind _ _) _ => apply ensures_bind
  | |- ensures (assign _ _ _ _) _ =>
      apply assign_step;
      [apply ok_unit; member_of_list | assumption | intros ? ?]
  | |- ensures (assignPositive _ _ _ _) _ =>
      apply assignPositive_step; [member_of_list | assumption | intros ? ?]
  | |- ensures (mret _) _ => apply ensures_ret; cbv beta
  | |- ensures (if ?b then _ else _) _ => destruct b
  | |- _ => assumption
  end.

(** The function builds its result from the empty mapping by assignments
    only: [increment(1)] to a unit counter, or [increment(x)] with a positive
    number [x] to an accumulator. Whatever such assignments preserve holds of
    the result. *)
Lemma getCounterUpdates_invariant (action : string)
    (properties : option (gmap string JsValue)) :
  I ∅ → ensures (getCounterUpdates increment action properties) I.
Proof.
  intros H0. unfold getCounterUpdates, sessionUpdates, videoForgeUpdates.
  cbv zeta. repeat step.
Qed.

(** The same with completion: when [increment] accepts every amount the
    function passes to it, the function completes normally. *)
Hypothesis increment_ok : ∀ field n, ok field n → ∃ v, increment n = Normal v.

Lemma returns_bind {A B : Type} (m : Completion A) (f : A → Completion B)
    (Q : B → Prop) :
  returns m (λ a, returns (f a) Q) → returns (m ≫= f) Q.
Proof. by intros (a & -> & Ha). Qed.

Lemma returns_ret {A : Type} (a : A) (Q : A → Prop) :
  Q a → returns (mret a) Q.
Proof. intros Ha. by exists a. Qed.

Lemma assign_returns (field : string) (n : float) (u : gmap string V)
    (Q : gmap string V → Prop) :
  ok field n → I u → (∀ u', I u' → Q u') →
  returns (assign increment field n u) Q.
Proof.
  intros Hok Hu HQ. unfold assign.
  destruct (increment_ok field n Hok) as [v Hv]. rewrite Hv.
  exists (<[field := v]> u). split; [done|].
  apply HQ. by eapply I_insert.
Qed.

Lemma assignPositive_returns (field : string) (v : JsValue)
    (u : gmap string V) (Q : gmap string V → Prop) :
  field ∈ accumulators → I u → (∀ u', I u' → Q u') →
  returns (assignPositive increment field v u) Q.
Proof.
  intros Hf Hu HQ. unfold assignPositive.
  destruct (positiveNumber v) as [x|] eqn:Hx.
  - apply positiveNumber_Some in Hx as [_ Hx].
    apply assign_returns; auto.
  - apply returns_ret. by apply HQ.
Qed.

#[local] Ltac run :=
  lazymatch goal with
  | |- returns (mbind _ _) _ => apply returns_bind
  | |- returns (assign _ _ _ _) _ =>
      apply assign_returns;
      [apply ok_unit; member_of_list | assumption | intros ? ?]
  | |- returns (assignPositive _ _ _ _) _ =>
      apply assignPositive_returns; [member_of_list | assumption | intros ? ?]
  | |- returns (mret _) _ => apply returns_ret; cbv beta
  | |- returns (if ?b then _ else _) _ => destruct b
  | |- _ => assumption
  end.

Lemma getCounterUpdates_returns (action : string)
    (properties : option (gmap string JsValue)) :
  I ∅ → returns (getCounterUpdates increment action properties) I.
Proof.
  intros H0. unfold getCounterUpdates, sessionUpdates, videoForgeUpdates.
  cbv zeta. repeat run.
Qed.

End Invariant.

Lemma unitCounters_declared (field : string) :
  field ∈ unitCounters → field ∈ ALL_COUNTER_FIELDS.
Proof.
  revert field. apply Forall_forall.
  apply (bool_decide_unpack _). by vm_compute.
Qed.

Lemma accumulators_declared (field : string) :
  field ∈ accumulators → field ∈ ALL_COUNTER_FIELDS.
Proof.
  revert field. apply Forall_forall.
  apply (bool_decide_unpack _). by vm_compute.
Qed.

Lemma written_fields_declared {V : Type}
    (increment : float → Completion V) (action : string)
    (properties : option (gmap string JsValue)) (updates : gmap string V)
    (field : string) :
  getCounterUpdates increment action properties = Normal updates →
  is_Some (updates !! field) →
  field ∈ ALL_COUNTER_FIELDS.
Proof.
  intros Hrun. revert field.
  refine (ensures_normal _ (λ u, ∀ field, is_Some (u !! field) →
                                 field ∈ ALL_COUNTER_FIELDS) _ _ Hrun).
  apply (getCounterUpdates_invariant increment _
           (λ field _, field ∈ ALL_COUNTER_FIELDS)).
  - intros f n u v _ Hf Hu field.
    destruct (decide (f = field)) as [->|Hne]; [done|].
    rewrite lookup_insert_ne by done. apply Hu.
  - apply unitCounters_declared.
  - intros f x Hf _. by apply accumulators_declared.
  - intros field. rewrite lookup_empty. by intros [? ?].
Qed.

(** X1. Every counter field that [getCounterUpdates] writes, for any action,
    property bag and increment function, is one of [ALL_COUNTER_FIELDS]. *)
Theorem getCounterUpdates_fields_declared {V : Type}
    (increment : float → Completion V) (action : string)
    (properties : option (gmap string JsValue)) (updates : gmap string V)
    (field : string) :
  getCounterUpdates increment action properties = Normal updates →
  is_Some (updates !! field) →
  field ∈ ALL_COUNTER_FIELDS.
Proof. apply written_fields_declared. Qed.

Lemma getCounterUpdates_fields_declared_witness :
  "sessions_teach_ai" ∈ ALL_COUNTER_FIELDS.
Proof.
  apply (getCounterUpdates_fields_declared mockIncrement "session"
           (Some {[ "output_type" := JStr "teach_ai" ]})
           {[ "sessions_started" := 1%float; "sessions_teach_ai" := 1%float;
              "sessions_screen" := 1%float ]}).
  - reflexivity.
  - by eexists.
Defined.

(** X2. The amounts that [getCounterUpdates] passes to the increment
    function are positive numbers: with an increment function that raises
    on anything else, the function completes normally on every action and
    property bag, and every amount in its result is positive. *)
Theorem getCounterUpdates_positive_amounts (action : string)
    (properties : option (gmap string JsValue)) :
  ∃ updates,
    getCounterUpdates positiveIncrement action properties = Normal updates
    ∧ ∀ field x, updates !! field = Some x → PrimFloat.ltb 0 x = true.
Proof.
  apply (getCounterUpdates_returns positiveIncrement
           (λ u, ∀ field x, u !! field = Some x → PrimFloat.ltb 0 x = true)
           (λ _ n, PrimFloat.ltb 0 n = true)).
  - intros f n u v Hv Hn Hu field x.
    unfold positiveIncrement in Hv. rewrite Hn in Hv. injection Hv as <-.
    destruct (decide (f = field)) as [->|Hne].
    + rewrite lookup_insert_eq. by intros [= <-].
    + rewrite lookup_insert_ne by done. apply Hu.
  - reflexivity.
  - done.
  - intros f n Hn. exists n. unfold positiveIncrement. by rewrite Hn.
  - intros field x. by rewrite lookup_empty.
Qed.

Lemma isStr_truthy (v : JsValue) (lit : string) :
  lit ≠ "" → isStr v lit = true → toBoolean v = true.
Proof.
  intros Hl Hv. destruct v; try discriminate Hv. simpl in *.
  apply String.eqb_eq in Hv as ->. by apply negb_true_iff, String.eqb_neq.
Qed.

Lemma isStr_falsy (v : JsValue) (lit : string) :
  lit ≠ "" → toBoolean v = false → isStr v lit = false.
Proof.
  intros Hl Hv. destruct (isStr v lit) eqn:Hs; [|done].
  apply isStr_truthy in Hs; congruence.
Qed.

(** X3. A session start is never counted twice in a family: whatever the
    property bag holds, well typed or not, the result sets
    [sessions_started], at most one of [sessions_screen] and
    [sessions_camera], and at most one of [sessions_workflow] and
    [sessions_teach_ai]. *)
Theorem getCounterUpdates_session_no_double_count {V : Type}
    (increment : float → Completion V)
    (properties : option (gmap string JsValue)) (updates : gmap string V) :
  getCounterUpdates increment "session" properties = Normal updates →
  is_Some (updates !! "sessions_started")
  ∧ ¬ (is_Some (updates !! "sessions_screen")
       ∧ is_Some (updates !! "sessions_camera"))
  ∧ ¬ (is_Some (updates !! "sessions_workflow")
       ∧ is_Some (updates !! "sessions_teach_ai")).
Proof.
  unfold getCounterUpdates. rewrite String.eqb_refl.
  unfold sessionUpdates, assign.
  generalize (property properties "recording_source")
             (property properties "output_type")
             (property properties "session_type").
  intros rs ot st.
  destruct (increment 1%float) as [v|e]; [|discriminate].
  destruct (toBoolean rs) eqn:Hrs; destruct (toBoolean ot) eqn:Hot;
    try rewrite (isStr_falsy rs "screen"), (isStr_falsy rs "camera") by done;
    try rewrite (isStr_falsy ot "workflow"), (isStr_falsy ot "teach_ai")
      by done;
    cbn [negb andb]; repeat case_match; intros [= <-];
    (split; [by eexists|]);
    split; intros [[? Hfirst] [? Hsecond]];
    vm_compute in Hfirst, Hsecond; congruence.
Qed.

Lemma getCounterUpdates_session_no_double_count_witness :
  is_Some (({[ "sessions_started" := 1%float; "sessions_camera" := 1%float;
               "sessions_workflow" := 1%float ]} : gmap string float)
           !! "sessions_started").
Proof.
  apply (getCounterUpdates_session_no_double_count mockIncrement
           (Some {[ "recording_source" := JStr "camera";
                    "session_type" := JStr "teach_ai" ]})).
  reflexivity.
Defined.

(** X22. The accumulating counters follow the numeric properties. A
    completed session always adds one to [sessions_completed], and adds the
    duration exactly when [session_duration_ms] is a number above zero (a
    numeric string, zero, a negative number or NaN adds nothing). A video
    forge event of either kind adds each of the three token and cost
    properties under the same rule and sets no other counter, so without a
    usable number its mapping is empty. *)
Theorem getCounterUpdates_accumulators
    (properties : option (gmap string JsValue)) :
  (∃ updates,
      getCounterUpdates mockIncrement "session_complete" properties
      = Normal updates
      ∧ updates !! "sessions_completed" = Some 1%float
      ∧ updates !! "total_session_duration_ms"
        = positiveNumber (property properties "session_duration_ms")
      ∧ ∀ field, is_Some (updates !! field) →
                 field = "sessions_completed"
                 ∨ field = "total_session_duration_ms")
  ∧ (∀ action,
        action = "video_forge_analysis" ∨ action = "video_forge_augmentation" →
        ∃ updates,
          getCounterUpdates mockIncrement action properties = Normal updates
          ∧ updates !! "video_forge_input_tokens"
            = positiveNumber (property properties "input_tokens")
          ∧ updates !! "video_forge_output_tokens"
            = positiveNumber (property properties "output_tokens")
          ∧ updates !! "video_forge_cost_usd"
            = positiveNumber (property properties "cost_usd")
          ∧ ∀ field, is_Some (updates !! field) →
                     field = "video_forge_input_tokens"
                     ∨ field = "video_forge_output_tokens"
                     ∨ field = "video_forge_cost_usd")
  ∧ (∀ v x, positiveNumber v = Some x
            ↔ v = JNum x ∧ PrimFloat.ltb 0 x = true).
Proof.
  split; [|split; [|apply positiveNumber_Some]].
  - unfold getCounterUpdates. cbn [String.eqb Ascii.eqb Bool.eqb].
    unfold assign, assignPositive, mockIncrement.
    destruct (positiveNumber (property properties "session_duration_ms"));
      eexists; (split; [reflexivity|]);
      (split; [reflexivity|]); (split; [reflexivity|]);
      intros field [v Hv]; revert Hv;
      rewrite ?lookup_insert, lookup_empty; repeat case_decide; naive_solver.
  - intros action Ha.
    assert (Hrun : getCounterUpdates mockIncrement action properties
                   = videoForgeUpdates mockIncrement properties ∅)
      by (by destruct Ha as [-> | ->]).
    rewrite Hrun. unfold videoForgeUpdates, assign, assignPositive,
      mockIncrement. cbv zeta.
    destruct (positiveNumber (property properties "input_tokens")),
      (positiveNumber (property properties "output_tokens")),
      (positiveNumber (property properties "cost_usd"));
      eexists; (split; [reflexivity|]);
      (split; [reflexivity|]); (split; [reflexivity|]);
      (split; [reflexivity|]);
      intros field [v Hv]; revert Hv;
      rewrite ?lookup_insert, lookup_empty; repeat case_decide; naive_solver.
Qed.

End CounterUpdatesFacts.

(** ** Properties of the usage logging constants *)

Module UsageConstantsFacts.

Lemma includes_true (l : list string) (x : string) :
  includes l x = true ↔ x ∈ l.
Proof. unfold includes. apply bool_decide_eq_true. Qed.

Lemma includes_false (l : list string) (x : string) :
  includes l x = false ↔ x ∉ l.
Proof. unfold includes. apply bool_decide_eq_false. Qed.

(** X4. The four category predicates partition the valid actions: an action
    is valid exactly when one of them accepts it, and no action is accepted
    by two. *)
Theorem action_categories_partition (action : string) :
  Nat.b2n (isAdminPanelAction action) + Nat.b2n (isMcpAction action)
  + Nat.b2n (isVideoForgeAction action) + Nat.b2n (isBillingAction action)
  = Nat.b2n (isValidAction action).
Proof.
  unfold isAdminPanelAction, isMcpAction, isVideoForgeAction, isBillingAction,
    isValidAction.
  destruct (decide (action ∈ ALL_ACTIONS)) as [Hin|Hout].
  - unfold ALL_ACTIONS, ADMIN_PANEL_ACTIONS, MCP_ACTIONS, VIDEO_FORGE_ACTIONS,
      BILLING_ACTIONS in Hin. simpl in Hin.
    rewrite !elem_of_cons, elem_of_nil in Hin.
    repeat (destruct Hin as [-> | Hin]; [by vm_compute|]). done.
  - rewrite (proj2 (includes_false ALL_ACTIONS action)) by done.
    unfold ALL_ACTIONS in Hout. rewrite !elem_of_app in Hout.
    rewrite !(proj2 (includes_false _ action)) by tauto. reflexivity.
Qed.

Lemma handledActions_valid (action : string) :
  action ∈ handledActions → isValidAction action = true.
Proof.
  revert action. apply Forall_forall.
  apply (bool_decide_unpack _). by vm_compute.
Qed.

Lemma eqb_label (action label : string) :
  action ∉ handledActions → label ∈ handledActions →
  String.eqb action label = false.
Proof. intros Hn Hl. apply String.eqb_neq. by intros ->. Qed.

Lemma unhandled_no_updates {V : Type} (increment : float → Completion V)
    (action : string) (properties : option (gmap string JsValue)) :
  action ∉ handledActions →
  getCounterUpdates increment action properties = Normal ∅.
Proof.
  intros H. unfold getCounterUpdates.
  repeat rewrite (eqb_label _ _ H)
    by (apply (bool_decide_unpack _); by vm_compute).
  reflexivity.
Qed.

(** X5. Only valid actions are counted: when [getCounterUpdates] returns a
    mapping that is not empty, [isValidAction] accepts the action. *)
Theorem getCounterUpdates_counts_valid_actions {V : Type}
    (increment : float → Completion V) (action : string)
    (properties : option (gmap string JsValue)) (updates : gmap string V) :
  getCounterUpdates increment action properties = Normal updates →
  updates ≠ ∅ →
  isValidAction action = true.
Proof.
  intros Hrun Hne.
  destruct (decide (action ∈ handledActions)) as [Hin|Hout].
  - by apply handledActions_valid.
  - rewrite unhandled_no_updates in Hrun by done. congruence.
Qed.

Lemma getCounterUpdates_counts_valid_actions_witness :
  isValidAction "publish" = true.
Proof.
  apply (getCounterUpdates_counts_valid_actions mockIncrement "publish" None
           {[ "publishes" := 1%float ]}).
  - reflexivity.
  - intros H. apply (f_equal (λ m : gmap string float, m !! "publishes")) in H.
    vm_compute in H. discriminate H.
Defined.

(** X6. The converse fails on twelve valid actions: "unpublish",
    "mcp_context_generate" and the ten billing actions are accepted by
    [isValidAction], yet [getCounterUpdates] returns the empty mapping for
    them, whatever the properties; in particular "mcp_context_generate"
    does not add to [mcp_total]. *)
Theorem getCounterUpdates_uncounted_valid_actions {V : Type}
    (increment : float → Completion V) (action : string)
    (properties : option (gmap string JsValue)) :
  action = "unpublish" ∨ action = "mcp_context_generate"
    ∨ isBillingAction action = true →
  isValidAction action = true
  ∧ getCounterUpdates increment action properties = Normal ∅.
Proof.
  intros H.
  assert (Hin : action ∈ "unpublish" :: "mcp_context_generate" :: BILLING_ACTIONS).
  { rewrite !elem_of_cons. unfold isBillingAction in H.
    rewrite includes_true in H. tauto. }
  clear H. unfold BILLING_ACTIONS in Hin.
  rewrite !elem_of_cons, elem_of_nil in Hin.
  repeat (destruct Hin as [-> | Hin];
          [split; [by vm_compute | reflexivity]|]).
  done.
Qed.

Lemma getCounterUpdates_uncounted_valid_actions_witness :
  isValidAction "payment_succeeded" = true
  ∧ getCounterUpdates mockIncrement "payment_succeeded"
      (Some {[ "amount_usd" := JNum 20 ]}) = Normal ∅.
Proof.
  apply getCounterUpdates_uncounted_valid_actions.
  right. right. reflexivity.
Defined.

End UsageConstantsFacts.

(** ** Properties of the period identifiers and document paths *)

Module PathFacts.

Lemma length_append (s t : string) :
  String.length (s +:+ t) = String.length s + String.length t.
Proof. induction s as [|a s IH]; simpl; [done|]. by rewrite IH. Qed.

Lemma append_assoc (s t u : string) :
  (s +:+ t) +:+ u = s +:+ (t +:+ u).
Proof.
  induction s as [|a s IH]; [done|].
  change (String a ((s +:+ t) +:+ u) = String a (s +:+ (t +:+ u))).
  by rewrite IH.
Qed.

Lemma append_inj_suffix (s1 s2 t1 t2 : string) :
  s1 +:+ t1 = s2 +:+ t2 → String.length t1 = String.length t2 →
  s1 = s2 ∧ t1 = t2.
Proof.
  revert s2. induction s1 as [|a s1 IH]; intros [|b s2] Heq Hlen; simpl in *.
  - done.
  - apply (f_equal String.length) in Heq.
    rewrite ?length_append in Heq. simpl in Heq.
    rewrite ?length_append in Heq. lia.
  - apply (f_equal String.length) in Heq.
    rewrite ?length_append in Heq. simpl in Heq.
    rewrite ?length_append in Heq. lia.
  - injection Heq as -> Heq. destruct (IH _ Heq Hlen) as [-> ->]. done.
Qed.

(** Two strings cut at the first occurrence of a separator agree piecewise. *)
Lemma append_inj_separator (c : Ascii.ascii) (p p' u u' : string) :
  occurs c p = false → occurs c p' = false →
  p +:+ String c u = p' +:+ String c u' → p = p' ∧ u = u'.
Proof.
  revert p'. induction p as [|a p IH]; intros [|b p'] Hp Hp' Heq;
    simpl in *.
  - by injection Heq as ->.
  - injection Heq as <- _. by rewrite Ascii.eqb_refl in Hp'.
  - injection Heq as -> _. by rewrite Ascii.eqb_refl in Hp.
  - injection Heq as -> Heq.
    apply orb_false_iff in Hp as [_ Hp]. apply orb_false_iff in Hp' as [_ Hp'].
    destruct (IH _ Hp Hp' Heq) as [-> ->]. done.
Qed.

Lemma allChars_append (P : Ascii.ascii → bool) (s t : string) :
  allChars P (s +:+ t) = allChars P s && allChars P t.
Proof.
  induction s as [|a s IH]; simpl; [done|]. by rewrite IH, andb_assoc.
Qed.

Lemma allChars_occurs (P : Ascii.ascii → bool) (c : Ascii.ascii) (s : string) :
  P c = false → allChars P s = true → occurs c s = false.
Proof.
  intros Hc. induction s as [|a s IH]; simpl; [done|].
  intros [Ha Hs]%andb_true_iff. rewrite (IH Hs), orb_false_r.
  apply Ascii.eqb_neq. by intros ->; congruence.
Qed.

Lemma pretty_N_go_chars (x : N) (s : string) :
  allChars periodChar s = true → allChars periodChar (pretty_N_go x s) = true.
Proof.
  revert s. induction (N.lt_wf_0 x) as [x _ IH]; intros s Hs.
  assert (x = 0 ∨ 0 < x)%N as [->|Hx] by lia.
  - by rewrite pretty_N_go_0.
  - rewrite pretty_N_go_step by done. apply IH.
    + by apply N.div_lt.
    + simpl. rewrite Hs, andb_true_r.
      unfold pretty_N_char. by repeat case_match.
Qed.

Lemma pretty_N_chars (x : N) : allChars periodChar (pretty x) = true.
Proof.
  unfold pretty, pretty_N. case_decide; [done|]. by apply pretty_N_go_chars.
Qed.

Lemma pretty_nat_chars (x : nat) : allChars periodChar (pretty x) = true.
Proof. apply pretty_N_chars. Qed.

Lemma pretty_Z_chars (x : Z) : allChars periodChar (pretty x) = true.
Proof.
  destruct x as [|p|p]; [done|apply pretty_N_chars|].
  change (pretty (Z.neg p)) with ("-" +:+ pretty (N.pos p)).
  rewrite allChars_append, pretty_N_chars. done.
Qed.

Lemma padStart_chars (n : nat) (s : string) :
  allChars periodChar s = true →
  allChars periodChar (padStart n "0" s) = true.
Proof.
  intros Hs. unfold padStart. rewrite allChars_append, Hs, andb_true_r.
  induction (n - String.length s) as [|k IH]; simpl; [done|]. by rewrite IH.
Qed.

Lemma getDailyPeriodId_chars (date : UtcDate) :
  allChars periodChar (getDailyPeriodId date) = true.
Proof.
  unfold getDailyPeriodId. cbv zeta.
  rewrite !allChars_append, pretty_Z_chars.
  by rewrite !padStart_chars by apply pretty_nat_chars.
Qed.

(** The two-digit fields of a calendar date. *)
Lemma month_field_length (m : nat) :
  m < 12 → String.length (padStart 2 "0" (pretty (m + 1))) = 2.
Proof.
  intros Hm. do 12 (destruct m as [|m]; [reflexivity|]). lia.
Qed.

Lemma day_field_length (d : nat) :
  (d ≤ 31)%nat → String.length (padStart 2 "0" (pretty d)) = 2.
Proof.
  intros Hd. do 32 (destruct d as [|d]; [reflexivity|]). lia.
Qed.

Lemma month_field_inj (m m' : nat) :
  m < 12 → m' < 12 →
  padStart 2 "0" (pretty (m + 1)) = padStart 2 "0" (pretty (m' + 1)) →
  m = m'.
Proof.
  intros Hm Hm'.
  assert (H : Forall (λ a, Forall (λ b,
              padStart 2 "0" (pretty (a + 1)) = padStart 2 "0" (pretty (b + 1))
              → a = b) (seq 0 12)) (seq 0 12))
    by (apply (bool_decide_unpack _); by vm_compute).
  rewrite Forall_forall in H. specialize (H m). rewrite Forall_forall in H.
  apply H; apply elem_of_seq; lia.
Qed.

Lemma day_field_inj (d d' : nat) :
  (d ≤ 31)%nat → (d' ≤ 31)%nat →
  padStart 2 "0" (pretty d) = padStart 2 "0" (pretty d') → d = d'.
Proof.
  intros Hd Hd'.
  assert (H : Forall (λ a, Forall (λ b,
              padStart 2 "0" (pretty a) = padStart 2 "0" (pretty b)
              → a = b) (seq 0 32)) (seq 0 32))
    by (apply (bool_decide_unpack _); by vm_compute).
  rewrite Forall_forall in H. specialize (H d). rewrite Forall_forall in H.
  apply H; apply elem_of_seq; lia.
Qed.

Lemma getDailyPeriodId_fields (date date' : UtcDate) :
  calendarDate date → calendarDate date' →
  getDailyPeriodId date = getDailyPeriodId date' →
  getUTCFullYear date = getUTCFullYear date'
  ∧ getUTCMonth date = getUTCMonth date'
  ∧ getUTCDate date = getUTCDate date'.
Proof.
  intros [Hm [_ Hd]] [Hm' [_ Hd']]. unfold getDailyPeriodId. cbv zeta.
  intros Heq.
  apply append_inj_suffix in Heq as [Hy Heq].
  2: { rewrite !length_append.
       by rewrite !month_field_length, !day_field_length by done. }
  apply (inj pretty) in Hy. split; [done|].
  apply String.app_inj in Heq.
  apply append_inj_suffix in Heq as [Hmm Heq].
  2: { rewrite !length_append. by rewrite !day_field_length by done. }
  apply month_field_inj in Hmm; [|done..]. split; [done|].
  apply String.app_inj in Heq.
  by apply day_field_inj in Heq.
Qed.

Lemma utcDate_eq (date date' : UtcDate) :
  getUTCFullYear date = getUTCFullYear date' →
  getUTCMonth date = getUTCMonth date' →
  getUTCDate date = getUTCDate date' →
  date = date'.
Proof. destruct date, date'; simpl. by intros -> -> ->. Qed.

Lemma userDocId_split (p p' u u' : string) :
  occurs "_" p = false → occurs "_" p' = false →
  getDailyUserDocId p u = getDailyUserDocId p' u' → p = p' ∧ u = u'.
Proof. intros Hp Hp'. by apply append_inj_separator. Qed.

Lemma orgCounterPath_split (p p' o o' : string) :
  occurs "/" p = false → occurs "/" p' = false →
  getOrgCounterPath p o = getOrgCounterPath p' o' → p = p' ∧ o = o'.
Proof.
  intros Hp Hp' Heq. unfold getOrgCounterPath in Heq.
  do 2 apply String.app_inj in Heq.
  apply (append_inj_separator "/") in Heq as [-> Heq]; [|done..].
  by do 2 apply String.app_inj in Heq.
Qed.


(** X8. Two calendar dates with the same period identifier are the same
    date: year, month and day are read back from the identifier. *)
Theorem getDailyPeriodId_injective (date date' : UtcDate) :
  calendarDate date → calendarDate date' →
  getDailyPeriodId date = getDailyPeriodId date' →
  date = date'.
Proof.
  intros Hd Hd' Heq.
  destruct (getDailyPeriodId_fields _ _ Hd Hd' Heq) as (? & ? & ?).
  by apply utcDate_eq.
Qed.

Lemma getDailyPeriodId_injective_witness :
  {| getUTCFullYear := 2026; getUTCMonth := 0; getUTCDate := 13 |}
  = {| getUTCFullYear := 2026; getUTCMonth := 0; getUTCDate := 13 |}.
Proof.
  apply getDailyPeriodId_injective.
  - unfold calendarDate. simpl. lia.
  - unfold calendarDate. simpl. lia.
  - reflexivity.
Defined.

(** X9. The daily-user document identifier determines the period and the
    user when the period identifiers hold no underscore; with an underscore
    in the period identifier two different pairs can share an identifier. *)
Theorem getDailyUserDocId_unique :
  (∀ p u p' u' : string,
      occurs "_" p = false → occurs "_" p' = false →
      getDailyUserDocId p u = getDailyUserDocId p' u' → p = p' ∧ u = u')
  ∧ getDailyUserDocId "a_b" "c" = getDailyUserDocId "a" "b_c".
Proof.
  split; [|reflexivity]. intros p u p' u'. apply userDocId_split.
Qed.

Lemma getDailyUserDocId_unique_witness :
  "2026-01-13" = "2026-01-13" ∧ "user123" = "user123".
Proof.
  apply (proj1 getDailyUserDocId_unique "2026-01-13" "user123"
           "2026-01-13" "user123"); reflexivity.
Defined.

(** X10. The per-organisation counter document lies under the daily counter
    document of its period, and its path determines the period and the
    organisation when the period identifiers hold no slash. *)
Theorem getOrgCounterPath_unique :
  (∀ p o : string,
      getOrgCounterPath p o = getDailyCounterPath p +:+ "/orgs/" +:+ o)
  ∧ (∀ p o p' o' : string,
        occurs "/" p = false → occurs "/" p' = false →
        getOrgCounterPath p o = getOrgCounterPath p' o' → p = p' ∧ o = o').
Proof.
  split; [|intros p o p' o'; apply orgCounterPath_split].
  intros p o. unfold getOrgCounterPath, getDailyCounterPath.
  by rewrite !append_assoc.
Qed.

Lemma getOrgCounterPath_unique_witness :
  "2026-01-13" = "2026-01-13" ∧ "test-org" = "test-org".
Proof.
  apply (proj2 getOrgCounterPath_unique "2026-01-13" "test-org"
           "2026-01-13" "test-org"); reflexivity.
Defined.

(** X11. Counter documents and daily-user records of the identifiers that
    [getDailyPeriodId] generates never collide: the daily counter path, the
    per-organisation counter path and the daily-user identifier of a
    calendar date determine the date, the organisation and the user. *)
Theorem generated_documents_distinct (date date' : UtcDate)
    (id id' : string) :
  calendarDate date → calendarDate date' →
  (getDailyCounterPath (getDailyPeriodId date)
   = getDailyCounterPath (getDailyPeriodId date') → date = date')
  ∧ (getOrgCounterPath (getDailyPeriodId date) id
     = getOrgCounterPath (getDailyPeriodId date') id' →
     date = date' ∧ id = id')
  ∧ (getDailyUserDocId (getDailyPeriodId date) id
     = getDailyUserDocId (getDailyPeriodId date') id' →
     date = date' ∧ id = id').
Proof.
  intros Hd Hd'.
  assert (Hdate : getDailyPeriodId date = getDailyPeriodId date' →
                  date = date').
  { intros Heq.
    destruct (getDailyPeriodId_fields _ _ Hd Hd' Heq) as (? & ? & ?).
    by apply utcDate_eq. }
  assert (Hsep : ∀ c d, periodChar c = false →
                        occurs c (getDailyPeriodId d) = false).
  { intros c d Hc. apply (allChars_occurs periodChar); [done|].
    apply getDailyPeriodId_chars. }
  split; [|split].
  - intros Heq. unfold getDailyCounterPath in Heq.
    do 2 apply String.app_inj in Heq. by apply Hdate.
  - intros Heq. apply orgCounterPath_split in Heq as [Heq ->];
      [|by apply Hsep..]. split; [by apply Hdate|done].
  - intros Heq. apply userDocId_split in Heq as [Heq ->];
      [|by apply Hsep..]. split; [by apply Hdate|done].
Qed.

Lemma generated_documents_distinct_witness :
  {| getUTCFullYear := 2026; getUTCMonth := 0; getUTCDate := 13 |}
  = {| getUTCFullYear := 2026; getUTCMonth := 0; getUTCDate := 13 |}
  ∧ "test-org" = "test-org".
Proof.
  refine (proj1 (proj2 (generated_documents_distinct
            {| getUTCFullYear := 2026; getUTCMonth := 0; getUTCDate := 13 |}
            {| getUTCFullYear := 2026; getUTCMonth := 0; getUTCDate := 13 |}
            "test-org" "test-org" _ _)) _).
  - unfold calendarDate. simpl. lia.
  - unfold calendarDate. simpl. lia.
  - reflexivity.
Defined.

End PathFacts.

(** ** Further properties of the content resolution *)

Module ResolutionFacts.

Import SchemasFacts.

Lemma effectiveOriginalLanguage_reads (s s' : SessionContentDoc) :
  content_metadata s = content_metadata s' →
  originalLanguage s = originalLanguage s' →
  effectiveOriginalLanguage s = effectiveOriginalLanguage s'.
Proof. unfold effectiveOriginalLanguage. by intros -> ->. Qed.

Lemma requestedLanguage_absent (originalLang : option string) :
  requestedLanguage None originalLang = originalLang
  ∧ requestedLanguage (Some "") originalLang = originalLang
  ∧ requestedLanguage (Some "auto") originalLang = originalLang.
Proof. done. Qed.

(** X12. The resolver reads the content, the language fields and, of the
    translation map, only the translated content and the status of the
    entry for the requested language: two sessions that agree on these get
    the same result. Revision, fingerprint and timestamps of the session and
    of the entry are never compared, and entries of other languages do not
    matter. *)
Theorem getResolvedContent_reads (s s' : SessionContentDoc)
    (selectedLang : option string) :
  sameReads selectedLang s s' →
  getResolvedContent (Some s) selectedLang
  = getResolvedContent (Some s') selectedLang.
Proof.
  intros (Hc & Hm & Ho & He). cbv zeta in He.
  pose proof (effectiveOriginalLanguage_reads s s' Hm Ho) as Hlang.
  destruct (toBoolean (content s)) eqn:Htruthy.
  - rewrite !getResolvedContent_branch by congruence. do 2 f_equal.
    unfold branchOf, canonicalResult, translatedResult.
    rewrite <- Hlang, <- Hc.
    destruct (negb _ || bool_decide _); [done|].
    destruct (entryOf (default ∅ (translations s)) _) as [e|],
      (entryOf (default ∅ (translations s')) _) as [e'|]; simpl in He;
      try done.
    destruct He as [-> ->]. done.
  - rewrite !getResolvedContent_no_content by (simpl; congruence). done.
Qed.

Lemma getResolvedContent_reads_witness :
  getResolvedContent (Some Examples.library) (Some "es")
  = getResolvedContent
      (Some {| content := Examples.guide "Guide";
               content_metadata := Some {| output_language := Some "auto";
                                           detected_language := Some "fr" |};
               originalLanguage := None;
               contentRevision := Some 9%float;
               contentFingerprint := None;
               translations :=
                 Some {[ "es" := {| translatedContent := Examples.guide "Guia";
                                    translatedAt := "2020-01-01T00:00:00Z";
                                    sourceRevision := 1;
                                    sourceFingerprint := "old";
                                    status := TsReady;
                                    model := Some "m";
                                    error := None |} ]};
               updated_at := Some "2024-03-01T00:00:00Z" |})
      (Some "es").
Proof.
  apply getResolvedContent_reads. unfold sameReads.
  split; [reflexivity|]. split; [reflexivity|]. split; [reflexivity|].
  vm_compute. split; reflexivity.
Defined.

(** X13. An absent selector, the empty string and the sentinel "auto" are
    interchangeable: the resolver returns the same result for the three, on
    every session argument. *)
Theorem getResolvedContent_selector_sentinels
    (session : option SessionContentDoc) :
  getResolvedContent session (Some "") = getResolvedContent session None
  ∧ getResolvedContent session (Some "auto") = getResolvedContent session None.
Proof. done. Qed.

(** X14. An explicit [originalLanguage] wins over the metadata, also when it
    is the empty string: the metadata is then not consulted, and a request
    without a language gets the canonical content with the empty string as
    language used, not the metadata language and not "en". *)
Theorem getResolvedContent_override (s : SessionContentDoc)
    (l : string) (selectedLang : option string) :
  toBoolean (content s) = true →
  originalLanguage s = Some l →
  effectiveOriginalLanguage s = Some l
  ∧ (selectedLang = None ∨ selectedLang = Some "auto" ∨ selectedLang = Some l →
     getResolvedContent (Some s) selectedLang
     = Normal (Some {| contentToUse := content s;
                       dir := getTextDirection (Some l);
                       languageUsed := l;
                       freshnessStatus := FsCanonical |})).
Proof.
  intros Hc Ho.
  assert (Hl : effectiveOriginalLanguage s = Some l)
    by (unfold effectiveOriginalLanguage; by rewrite Ho).
  split; [done|]. intros Hsel.
  rewrite getResolvedContent_branch by done.
  unfold branchOf. rewrite Hl.
  rewrite (requestedLanguage_original selectedLang (Some l)) by done.
  rewrite (bool_decide_eq_true_2 (Some l = Some l)) by done.
  rewrite orb_true_r. unfold canonicalResult. by rewrite Hl.
Qed.

Lemma getResolvedContent_override_witness :
  getResolvedContent
    (Some {| content := Examples.guide "Guide";
             content_metadata := Some {| output_language := Some "he";
                                         detected_language := None |};
             originalLanguage := Some "";
             contentRevision := None;
             contentFingerprint := None;
             translations := None;
             updated_at := None |})
    None
  = Normal (Some {| contentToUse := Examples.guide "Guide";
                    dir := DirAuto;
                    languageUsed := "";
                    freshnessStatus := FsCanonical |}).
Proof.
  refine (proj2 (getResolvedContent_override _ "" None _ _) _).
  - reflexivity.
  - reflexivity.
  - by left.
Defined.

(** X15. The two language helpers agree: without an [originalLanguage]
    override, a request without a language is resolved in the language that
    [getEffectiveLanguage] gives for the metadata, with the direction that
    [getTextDirection] gives for it, and in "en" with direction "auto" when
    it gives none. [getEffectiveLanguage] raises on no metadata. *)
Theorem getResolvedContent_effective_language (s : SessionContentDoc) :
  toBoolean (content s) = true →
  originalLanguage s = None →
  ∃ language,
    getEffectiveLanguage (content_metadata s) = Normal language
    ∧ getResolvedContent (Some s) None
      = Normal (Some {| contentToUse := content s;
                        dir := getTextDirection language;
                        languageUsed := default "en" language;
                        freshnessStatus := FsCanonical |}).
Proof.
  intros Hc Ho. exists (effectiveOriginalLanguage s). split.
  - unfold getEffectiveLanguage.
    change (getEffectiveOriginalLanguage (content_metadata s)
            = Normal (effectiveOriginalLanguage s)).
    rewrite getEffectiveOriginalLanguage_total.
    unfold effectiveOriginalLanguage. by rewrite Ho.
  - rewrite getResolvedContent_branch by done.
    unfold branchOf.
    rewrite (proj1 (requestedLanguage_absent _)).
    rewrite (bool_decide_eq_true_2 (_ = _)) by done.
    by rewrite orb_true_r.
Qed.

Lemma getResolvedContent_effective_language_witness :
  ∃ language,
    getEffectiveLanguage (content_metadata Examples.library) = Normal language
    ∧ getResolvedContent (Some Examples.library) None
      = Normal (Some {| contentToUse := content Examples.library;
                        dir := getTextDirection language;
                        languageUsed := default "en" language;
                        freshnessStatus := FsCanonical |}).
Proof.
  apply getResolvedContent_effective_language; reflexivity.
Defined.

End ResolutionFacts.

(** ** Properties of the event writer *)

Module UsageEventsFacts.

Section Facts.

Context {V T : Type}.

#[local] Ltac run_logUsageEvent :=
  unfold logUsageEvent; cbv zeta;
  unfold mbind, Io_bind, sync, awaitAddDocument, awaitSetDocumentMerge,
    mret, Io_ret.

(** X16. [logUsageEvent] writes in a fixed order: the event document first,
    then the global, the daily and the per-organisation counter documents,
    at the paths that the path builders of the constants module give. It
    stops at the first failure, so the writes made are an initial part of
    these four, and all four when it completes normally. Earlier calls are
    left as they were. *)
Theorem logUsageEvent_write_order (now : UtcDate) (uuid : string)
    (options : UsageLogOptions) (firestore : FirestoreOperations V T)
    (calls : list (FirestoreCall V T)) :
  ∃ written,
    (logUsageEvent now uuid options firestore calls).1 = (calls ++ written)%list
    ∧ ((λ c, (isAddDocument c, callPath c)) <$> written)
        `prefix_of` plannedWrites now options
    ∧ (∀ result,
          (logUsageEvent now uuid options firestore calls).2 = Normal result →
          (λ c, (isAddDocument c, callPath c)) <$> written
          = plannedWrites now options).
Proof.
  run_logUsageEvent.
  repeat (match goal with
          | |- context [match ?c with Normal _ => _ | Throw _ => _ end] =>
              destruct c
          end);
    cbn [fst snd]; eexists;
    (split; [rewrite <- ?app_assoc; cbn [app]; try reflexivity;
             symmetry; apply app_nil_r|]);
    (split; [eexists; reflexivity | intros result Hr; try discriminate Hr]).
  reflexivity.
Qed.

Lemma counterData_lookup (fields : gmap string (FieldValue V T))
    (updates : gmap string V) (timestamp : T) (field : string) :
  counterData fields updates timestamp !! field
  = if decide (field = "last_updated") then Some (FTimestamp timestamp)
    else match updates !! field with
         | Some v => Some (FIncrement v)
         | None => fields !! field
         end.
Proof.
  unfold counterData. case_decide as Hf.
  - subst. apply lookup_insert_eq.
  - rewrite lookup_insert_ne by done.
    rewrite lookup_union, lookup_fmap.
    destruct (updates !! field), (fields !! field); reflexivity.
Qed.

Lemma bookkeeping_not_counter (field : string) :
  field ∈ ["last_updated"; "period_id"; "org_id"] →
  field ∉ ALL_COUNTER_FIELDS.
Proof.
  rewrite !elem_of_cons, elem_of_nil.
  intros [-> | [-> | [-> | []]]]; apply (bool_decide_unpack _); by vm_compute.
Qed.

Lemma counter_not_bookkeeping (field : string) :
  field ∈ ALL_COUNTER_FIELDS →
  field ≠ "last_updated" ∧ field ≠ "period_id" ∧ field ≠ "org_id".
Proof.
  intros Hf. repeat split; intros ->; revert Hf;
    apply (bool_decide_unpack _); by vm_compute.
Qed.

(** X17. When [logUsageEvent] completes normally it has made exactly its
    four writes, the result names the event and the period, and the three
    counter documents carry the same increments: on every counter field
    they hold what [getCounterUpdates] returned for the action, and the
    counters cannot overwrite the bookkeeping fields [last_updated],
    [period_id] and [org_id]. *)
Theorem logUsageEvent_counter_documents (now : UtcDate) (uuid : string)
    (options : UsageLogOptions) (firestore : FirestoreOperations V T)
    (calls calls' : list (FirestoreCall V T)) (result : LogResult) :
  logUsageEvent now uuid options firestore calls = (calls', Normal result) →
  ∃ timestamp updates event global daily org,
    serverTimestamp firestore = Normal timestamp
    ∧ getCounterUpdates (increment firestore) (action options)
        (properties options) = Normal updates
    ∧ calls' = (calls ++
                [ AddDocument USAGE_PATHS.EVENTS.DATA event;
                  SetDocumentMerge USAGE_PATHS.COUNTERS.GLOBAL_TOTALS global;
                  SetDocumentMerge
                    (getDailyCounterPath (getDailyPeriodId now)) daily;
                  SetDocumentMerge
                    (getOrgCounterPath (getDailyPeriodId now) (orgId options))
                    org ])%list
    ∧ result = {| success := true;
                  event_id := generateEventId uuid;
                  period_id := getDailyPeriodId now |}
    ∧ (∀ field, field ∈ ALL_COUNTER_FIELDS →
         global !! field = FIncrement <$> updates !! field
         ∧ daily !! field = FIncrement <$> updates !! field
         ∧ org !! field = FIncrement <$> updates !! field)
    ∧ global !! "last_updated" = Some (FTimestamp timestamp)
    ∧ daily !! "last_updated" = Some (FTimestamp timestamp)
    ∧ org !! "last_updated" = Some (FTimestamp timestamp)
    ∧ global !! "period_id" = None
    ∧ daily !! "period_id" = Some (FData (JStr (getDailyPeriodId now)))
    ∧ org !! "period_id" = Some (FData (JStr (getDailyPeriodId now)))
    ∧ global !! "org_id" = None
    ∧ daily !! "org_id" = None
    ∧ org !! "org_id" = Some (FData (JStr (orgId options))).
Proof.
  run_logUsageEvent.
  destruct (serverTimestamp firestore) as [t|e]; [|discriminate].
  destruct (addDocument firestore _ _ _); [|discriminate].
  destruct (getCounterUpdates _ _ _) as [updates|e] eqn:Hrun; [|discriminate].
  do 3 (destruct (setDocumentMerge firestore _ _ _); [|discriminate]).
  intros [= <- <-].
  assert (Hnone : ∀ field, field ∈ ["last_updated"; "period_id"; "org_id"] →
                           updates !! field = None).
  { intros field Hf. apply eq_None_not_Some. intros Hsome.
    apply (bookkeeping_not_counter field Hf).
    by eapply CounterUpdatesFacts.written_fields_declared. }
  eexists t, updates, _, _, _, _.
  split; [done|]. split; [done|].
  split; [rewrite <- ?app_assoc; reflexivity|].
  split; [done|]. split.
  - intros field Hf. apply counter_not_bookkeeping in Hf as (H1 & H2 & H3).
    rewrite !counterData_lookup. rewrite !decide_False by done.
    rewrite lookup_empty, lookup_singleton_ne by done.
    rewrite lookup_insert_ne, lookup_singleton_ne by done.
    by destruct (updates !! field).
  - rewrite !counterData_lookup. simpl.
    rewrite !Hnone by (rewrite !elem_of_cons; tauto).
    repeat split; reflexivity.
Qed.

(** X18. The event is written before the counters are built. When the
    store rejects the event write, or when it accepts it and the increment
    function raises, [logUsageEvent] raises that error having made the one
    call for the event document: no counter document is written, and in the
    second case the stored event is left without its counters. *)
Theorem logUsageEvent_stops_before_counters (now : UtcDate) (uuid : string)
    (options : UsageLogOptions) (firestore : FirestoreOperations V T)
    (calls : list (FirestoreCall V T)) (timestamp : T) (e : JsError) :
  let event := eventData options (getDailyPeriodId now)
                 (generateEventId uuid) timestamp in
  serverTimestamp firestore = Normal timestamp →
  addDocument firestore calls USAGE_PATHS.EVENTS.DATA event = Throw e
  ∨ (addDocument firestore calls USAGE_PATHS.EVENTS.DATA event = Normal tt
     ∧ getCounterUpdates (increment firestore) (action options)
         (properties options) = Throw e) →
  logUsageEvent now uuid options firestore calls
  = ((calls ++ [AddDocument USAGE_PATHS.EVENTS.DATA event])%list, Throw e).
Proof.
  intros event Ht Hfail. run_logUsageEvent. rewrite Ht. fold event.
  change "usage/events/data" with USAGE_PATHS.EVENTS.DATA.
  destruct Hfail as [-> | [-> ->]]; reflexivity.
Qed.

(** X19. [logUsageEvent] completes normally, with four more calls made,
    whenever the store accepts every write, [serverTimestamp] returns and
    the increment function raises on no amount: the counter mapping itself
    cannot fail, whatever the action and the properties. *)
Theorem logUsageEvent_succeeds (now : UtcDate) (uuid : string)
    (options : UsageLogOptions) (firestore : FirestoreOperations V T)
    (calls : list (FirestoreCall V T)) (timestamp : T) :
  acceptsAll firestore →
  serverTimestamp firestore = Normal timestamp →
  (∀ n, ∃ v, increment firestore n = Normal v) →
  ∃ calls',
    logUsageEvent now uuid options firestore calls
    = (calls', Normal {| success := true;
                         event_id := generateEventId uuid;
                         period_id := getDailyPeriodId now |})
    ∧ length calls' = length calls + 4.
Proof.
  intros Hstore Ht Hinc.
  destruct (CounterUpdatesFacts.getCounterUpdates_returns (increment firestore)
              (λ _, True) (λ _ _, True)
              ltac:(done) ltac:(done) ltac:(done) ltac:(intros; apply Hinc)
              (action options) (properties options) I)
    as (updates & Hrun & _).
  run_logUsageEvent. rewrite Ht, Hrun.
  rewrite (proj1 (Hstore _ _ _)). rewrite !(proj2 (Hstore _ _ _)).
  eexists. split; [reflexivity|]. rewrite !length_app. simpl. lia.
Qed.

Lemma cleanProperties_lookup (options : UsageLogOptions) (bag : gmap string JsValue)
    (key : string) (v : JsValue) :
  cleanProperties options = Some bag →
  bag !! key = Some v ↔ optionProperty options key = Some v ∧ v ≠ JUndefined.
Proof.
  unfold cleanProperties, optionProperty.
  destruct (properties options) as [raw|]; [|discriminate]. simpl.
  intros [= <-]. rewrite map_lookup_filter_Some. simpl.
  split; intros [H1 H2]; (split; [done|]).
  - intros ->. discriminate H2.
  - by destruct v.
Qed.

(** X20. The event document never holds an undefined property: its
    [properties] field is either [null] or a bag that is not empty, and the
    bag holds exactly the properties of the options whose value is not
    [undefined]. It is [null] exactly when the options give no property
    with a defined value (no bag, an empty bag, or undefined values only). *)
Theorem eventData_properties (options : UsageLogOptions)
    (periodId eventId : string) (timestamp : T) :
  let field :=
    eventData (V:=V) options periodId eventId timestamp !! "properties" in
  (field = Some (FData JNull)
   ∨ ∃ bag, field = Some (FProperties bag) ∧ bag ≠ ∅
            ∧ ∀ key v, bag !! key = Some v
                       ↔ optionProperty options key = Some v ∧ v ≠ JUndefined)
  ∧ (field = Some (FData JNull)
     ↔ ∀ key v, optionProperty options key = Some v → v = JUndefined).
Proof.
  cbv zeta. unfold eventData. cbv zeta.
  rewrite lookup_insert_ne, lookup_insert_eq by done.
  destruct (cleanProperties options) as [bag|] eqn:Hclean; simpl.
  - pose proof (cleanProperties_lookup options bag) as Hbag.
    case_bool_decide as Hsize.
    + assert (Hne : bag ≠ ∅).
      { intros ->. rewrite map_size_empty in Hsize. lia. }
      split.
      * right. exists bag. split; [done|]. split; [done|].
        intros key v. by apply Hbag.
      * split; [discriminate|]. intros Hall. exfalso. apply Hne.
        apply map_empty. intros key.
        destruct (bag !! key) as [v|] eqn:Hv; [|done].
        apply Hbag in Hv as [Hv Hd]; [|done]. by apply Hall in Hv.
    + assert (Hempty : bag = ∅).
      { apply map_size_empty_iff. lia. }
      split; [by left|]. split; [|done]. intros _ key v Hv.
      destruct (isUndefined v) eqn:Hu; [by destruct v|].
      assert (Hd : v ≠ JUndefined) by (intros ->; discriminate Hu).
      assert (Hin : bag !! key = Some v) by (by apply Hbag).
      rewrite Hempty, lookup_empty in Hin. discriminate.
  - split; [by left|]. split; [|done]. intros _ key v.
    unfold cleanProperties in Hclean. unfold optionProperty.
    destruct (properties options); [discriminate|done].
Qed.

(** X21. [logMcpUsage] never raises: whatever the store and the increment
    function do, it completes normally, having made the calls that
    [logUsageEvent] makes for the same options with the service set to
    "flingoos-mcp", which is one of [USAGE_SERVICES]. *)
Theorem logMcpUsage_never_throws (now : UtcDate) (uuid : string)
    (options : McpLogOptions) (firestore : FirestoreOperations V T)
    (calls : list (FirestoreCall V T)) :
  logMcpUsage now uuid options firestore calls
  = ((logUsageEvent now uuid (mcpOptions options) firestore calls).1,
     Normal tt)
  ∧ service (mcpOptions options) = "flingoos-mcp"
  ∧ service (mcpOptions options) ∈ USAGE_SERVICES.
Proof.
  split; [|split; [reflexivity|]].
  - unfold logMcpUsage.
    by destruct (logUsageEvent _ _ _ _ _) as [calls' [result|e]].
  - apply (bool_decide_unpack _). by vm_compute.
Qed.

End Facts.

Import EventExamples.

Example logUsageEvent_session :
  (logUsageEvent january13 "0001" sessionEvent memoryStore []).2
  = Normal {| success := true; event_id := "evt_0001";
              period_id := "2026-01-13" |}
  ∧ (λ c, (isAddDocument c, callPath c))
      <$> (logUsageEvent january13 "0001" sessionEvent memoryStore []).1
    = [ (true, "usage/events/data");
        (false, "usage/counters/global/totals");
        (false, "usage/counters/daily/2026-01-13");
        (false, "usage/counters/daily/2026-01-13/orgs/test-org") ].
Proof. by vm_compute. Qed.

(** A session event on the accepting store: the daily counter document
    counts the session and keeps its period. *)
Lemma logUsageEvent_counter_documents_witness :
  ∃ daily : gmap string (FieldValue float string),
    daily !! "sessions_started" = Some (FIncrement 1%float)
    ∧ daily !! "period_id" = Some (FData (JStr "2026-01-13")).
Proof.
  edestruct (logUsageEvent_counter_documents january13 "0001" sessionEvent
               memoryStore [])
    as (t & updates & event & global & daily & org
        & Ht & Hrun & Hcalls & Hres & Hfields & Hrest).
  { reflexivity. }
  exists daily. split.
  - destruct (Hfields "sessions_started") as (_ & -> & _).
    { apply (bool_decide_unpack _). by vm_compute. }
    injection Hrun as <-. reflexivity.
  - apply Hrest.
Defined.

(** A session event with a failing increment function: the event is stored
    and the call raises. *)
Lemma logUsageEvent_stops_before_counters_witness :
  (λ c, (isAddDocument c, callPath c))
    <$> (logUsageEvent january13 "0001" sessionEvent brokenIncrementStore []).1
  = [ (true, "usage/events/data") ]
  ∧ (logUsageEvent january13 "0001" sessionEvent brokenIncrementStore []).2
    = Throw (TypeError "increment is not available").
Proof.
  rewrite (logUsageEvent_stops_before_counters january13 "0001" sessionEvent
             brokenIncrementStore [] "server-time"
             (TypeError "increment is not available")).
  - split; reflexivity.
  - reflexivity.
  - right. split; reflexivity.
Defined.

Lemma logUsageEvent_succeeds_witness :
  ∃ calls',
    logUsageEvent january13 "0001" sessionEvent memoryStore []
    = (calls', Normal {| success := true;
                         event_id := generateEventId "0001";
                         period_id := getDailyPeriodId january13 |})
    ∧ length calls' = 0 + 4.
Proof.
  apply (logUsageEvent_succeeds january13 "0001" sessionEvent memoryStore []
           "server-time").
  - intros calls path data. split; reflexivity.
  - reflexivity.
  - intros n. by exists n.
Defined.

End UsageEventsFacts.
